(** * boot/bootstrap.js: verified acquisition of bootstrap artifacts

    A shallow embedding of [mkpath], [download] and [main] from
    [src/boot/bootstrap.js], the properties its design document
    states about them, and further properties read off the code.

    The script runs under QuickJS ([qjs --std]).  Its [std] and [os]
    modules and [./sha256.js] are not part of the sources; they appear
    here as the operations of a [Host].  The program is written against
    an arbitrary host, in a monad that threads the host's world, stops at
    a thrown exception or at [os.exit], and records every host call with
    its arguments and its answer. *)

From Stdlib Require Import ZArith String Ascii List Lia Bool.
From Stdlib.Strings Require Import Byte.
From stdpp Require Import base option list strings gmap.

Local Open Scope string_scope.
Local Open Scope list_scope.
Local Open Scope Z_scope.

(** ** JavaScript values and string primitives used by the script *)

Module JS.

(** [s.lastIndexOf(c)] for a one-character needle: the index of the
    last occurrence, [-1] when there is none. *)
Fixpoint lastIndexOf_from (c : ascii) (s : string) (i found : Z) : Z :=
  match s with
  | EmptyString => found
  | String a s' =>
      lastIndexOf_from c s' (i + 1) (if Ascii.eqb a c then i else found)
  end.

Definition lastIndexOf (c : ascii) (s : string) : Z :=
  lastIndexOf_from c s 0 (-1).

(** [s.slice(0, e)]: a negative [e] counts from the end, and the end
    is clamped to the string. *)
Definition slice0 (s : string) (e : Z) : string :=
  let len := Z.of_nat (String.length s) in
  let e' := if e <? 0 then Z.max (len + e) 0 else Z.min e len in
  substring 0 (Z.to_nat e') s.

(** [s.split(sep)] for a one-character separator; the empty string
    splits into one empty segment. *)
Fixpoint split (sep : ascii) (s : string) : list string :=
  match s with
  | EmptyString => [EmptyString]
  | String a s' =>
      if Ascii.eqb a sep then EmptyString :: split sep s'
      else match split sep s' with
           | [] => [String a EmptyString]
           | h :: t => String a h :: t
           end
  end.

(** A string in a condition: only the empty string is falsy. *)
Definition truthy (s : string) : bool :=
  match s with EmptyString => false | String _ _ => true end.

(** [/needle/.test(hay)] for a pattern without metacharacters:
    [needle] occurs somewhere in [hay]. *)
Fixpoint regex_test (needle hay : string) : bool :=
  String.prefix needle hay ||
  match hay with
  | EmptyString => false
  | String _ hay' => regex_test needle hay'
  end.

(** [arr.join(sep)] on an array of strings. *)
Definition join (sep : string) (arr : list string) : string :=
  String.concat sep arr.

(** [arr.includes(x)] on an array of strings. *)
Definition includes (arr : list string) (x : string) : bool :=
  existsb (String.eqb x) arr.

(** [ToInt32]: the value of a number as a signed 32-bit integer. *)
Definition to_int32 (x : Z) : Z := (x + 2 ^ 31) mod 2 ^ 32 - 2 ^ 31.

(** [a | b] on integers. *)
Definition bitor (a b : Z) : Z := to_int32 (Z.lor (to_int32 a) (to_int32 b)).

(** The line feed written [\n] in the script. *)
Definition nl : string := String (ascii_of_nat 10) EmptyString.

(** An [Error] object; the script reads only its [message]. *)
Record error := Error { message : string }.

(** The arguments the script passes to [printf]. *)
Inductive arg :=
| Str (s : string)
| Num (n : Z).

End JS.

(** An [ArrayBuffer]. *)
Abbreviation bytes := (list byte).

Definition byteLength (b : bytes) : Z := Z.of_nat (List.length b).

(** ** The host: QuickJS' [std] and [os], and the hashing module *)

(** What [os.mkdir] can do to its caller: hand back a number, or throw.
    [mkpath] wraps the call in [try]/[catch] and drops the number. *)
Inductive mkdir_result :=
| MkdirReturns (rc : Z)
| MkdirThrows (e : JS.error).

Class Host := {
  world : Type;
  (** [sha256.arrayBufferToHex(sha256.sha256(buf))] *)
  sha256_hex : bytes -> string;
  (** [std.urlGet(url, {binary: true})]: [Some buf] when the answer is
      an [ArrayBuffer], [None] for anything else. *)
  std_urlGet : string -> world -> option bytes * world;
  os_mkdir : string -> Z -> world -> mkdir_result * world;
  (** [os.open(path, flags, mode)]: a descriptor, negative on failure. *)
  os_open : string -> Z -> Z -> world -> Z * world;
  (** [os.write(fd, buf, offset, length)]: the count written. *)
  os_write : Z -> bytes -> Z -> Z -> world -> Z * world;
  os_close : Z -> world -> Z * world;
  O_CREAT : Z;
  O_RDWR : Z;
  O_TRUNC : Z
}.

(** One entry of the record of host calls. *)
Inductive event :=
| EvUrlGet (url : string) (answer : option bytes)
| EvMkdir (path : string) (mode : Z) (answer : mkdir_result)
| EvOpen (path : string) (flags mode : Z) (fd : Z)
| EvWrite (fd : Z) (buf : bytes) (offset len : Z) (written : Z)
| EvClose (fd : Z) (rc : Z)
| EvErrPrint (text : string)
| EvErrPrintf (fmt : string) (args : list JS.arg)
| EvOutPrintf (fmt : string) (args : list JS.arg)
| EvExit (code : Z).

(** How a piece of the script ends. *)
Inductive outcome (A : Type) :=
| Returned (a : A)
| Thrown (e : JS.error)
| Exited (code : Z).
Arguments Returned {A} a.
Arguments Thrown {A} e.
Arguments Exited {A} code.

Section Script.
Context `{H : Host}.

Record result (A : Type) := Result {
  res_outcome : outcome A;
  res_world : world;
  res_trace : list event
}.
Arguments Result {A} _ _ _.
Arguments res_outcome {A} _.
Arguments res_world {A} _.
Arguments res_trace {A} _.

Definition M (A : Type) : Type := world -> result A.

Definition ret {A} (a : A) : M A := fun w => Result (Returned a) w [].

(** [r], after the calls [tr] were made. *)
Definition prepend {A} (tr : list event) (r : result A) : result A :=
  Result (res_outcome r) (res_world r) (tr ++ res_trace r).

Definition bind {A B} (m : M A) (k : A -> M B) : M B := fun w =>
  let r := m w in
  match res_outcome r with
  | Returned a => prepend (res_trace r) (k a (res_world r))
  | Thrown e => Result (Thrown e) (res_world r) (res_trace r)
  | Exited c => Result (Exited c) (res_world r) (res_trace r)
  end.

Definition throw {A} (e : JS.error) : M A := fun w => Result (Thrown e) w [].

(** [try { m } catch (e) { handler e }] *)
Definition try_catch {A} (m : M A) (handler : JS.error -> M A) : M A := fun w =>
  let r := m w in
  match res_outcome r with
  | Thrown e => prepend (res_trace r) (handler e (res_world r))
  | _ => r
  end.

Definition emit (ev : event) : M unit := fun w => Result (Returned tt) w [ev].

(** *** Host calls *)

Definition urlGet (url : string) : M (option bytes) := fun w =>
  let '(a, w') := std_urlGet url w in Result (Returned a) w' [EvUrlGet url a].

Definition mkdir (path : string) (mode : Z) : M Z := fun w =>
  let '(a, w') := os_mkdir path mode w in
  match a with
  | MkdirReturns rc => Result (Returned rc) w' [EvMkdir path mode a]
  | MkdirThrows e => Result (Thrown e) w' [EvMkdir path mode a]
  end.

Definition open (path : string) (flags mode : Z) : M Z := fun w =>
  let '(fd, w') := os_open path flags mode w in
  Result (Returned fd) w' [EvOpen path flags mode fd].

Definition write (fd : Z) (buf : bytes) (offset len : Z) : M Z := fun w =>
  let '(n, w') := os_write fd buf offset len w in
  Result (Returned n) w' [EvWrite fd buf offset len n].

Definition close (fd : Z) : M Z := fun w =>
  let '(rc, w') := os_close fd w in Result (Returned rc) w' [EvClose fd rc].

Definition err_print (text : string) : M unit := emit (EvErrPrint text).
Definition err_printf (fmt : string) (args : list JS.arg) : M unit :=
  emit (EvErrPrintf fmt args).
Definition out_printf (fmt : string) (args : list JS.arg) : M unit :=
  emit (EvOutPrintf fmt args).

(** [os.exit(code)] does not come back. *)
Definition exit {A} (code : Z) : M A := fun w =>
  Result (Exited code) w [EvExit code].

End Script.

Arguments Result {H A} _ _ _.
Arguments res_outcome {H A} _.
Arguments res_world {H A} _.
Arguments res_trace {H A} _.
Arguments prepend {H A} _ _.

Notation "x <- m ;; k" := (bind m (fun x => k))
  (at level 100, m at next level, right associativity, only parsing).
Notation "m ;;; k" := (bind m (fun _ => k))
  (at level 100, right associativity, only parsing).

(** ** The script *)

Section Bootstrap.
Context `{H : Host}.

(** The default [mode = 0o755] of [mkpath]. *)
Definition default_dir_mode : Z := 7 * 64 + 5 * 8 + 5.

(** The mode literal [0x755] that [download] passes to [os.open]. *)
Definition file_mode : Z := 0x755.

(** The [catch] clause of [mkpath]:
    [if (!/EEXIST/.test(e.message)) throw e;] *)
Definition mkdir_handler (e : JS.error) : M unit :=
  if negb (JS.regex_test "EEXIST" (JS.message e)) then throw e else ret tt.

(** [try { os.mkdir(subpath, mode); } catch (e) { ... }] *)
Definition try_mkdir (subpath : string) (mode : Z) : M unit :=
  try_catch (mkdir subpath mode ;;; ret tt) mkdir_handler.

(** [subpath += (subpath ? '/' : '') + part] *)
Definition extend (subpath part : string) : string :=
  subpath +:+ ((if JS.truthy subpath then "/" else "") +:+ part).

(** [for (const part of parts) { ... }] *)
Fixpoint mkpath_loop (parts : list string) (subpath : string) (mode : Z) : M unit :=
  match parts with
  | [] => ret tt
  | part :: rest =>
      let subpath := extend subpath part in
      try_mkdir subpath mode ;;;
      mkpath_loop rest subpath mode
  end.

Definition mkpath (filePath : string) (mode : Z) : M unit :=
  let idx := JS.lastIndexOf "/" filePath in
  if idx <=? 0 then ret tt
  else
    let dirPath := JS.slice0 filePath idx in
    let parts := JS.split "/" dirPath in
    mkpath_loop parts "" mode.

Definition fmt_fetch_failed (url : string) : string :=
  "Failed to fetch binary from " +:+ url +:+ JS.nl.
Definition fmt_checksum : string :=
  "Checksum mismatch for %s:" +:+ JS.nl +:+
  "  expected one of [%s]" +:+ JS.nl +:+
  "  got %s" +:+ JS.nl.
Definition fmt_cannot_open : string :=
  "Cannot open '%s' for writing" +:+ JS.nl.
Definition fmt_short_write : string :=
  "Failed to write '%s' (wrote %d of %d bytes)" +:+ JS.nl.
Definition fmt_downloaded : string :=
  "Downloaded '%s' (%d bytes)" +:+ JS.nl.

(** [os.O_CREAT | os.O_RDWR | os.O_TRUNC] *)
Definition open_flags : Z := JS.bitor (JS.bitor O_CREAT O_RDWR) O_TRUNC.

(** [checksums && !checksums.includes(digest)]: [null] (the default)
    and [undefined] are falsy, every array is truthy. *)
Definition checksum_rejected (checksums : option (list string)) (digest : string) : bool :=
  match checksums with
  | None => false
  | Some arr => negb (JS.includes arr digest)
  end.

(** The part of [download] after the fetch, on the buffer [dataBuf]. *)
Definition download_buffer (dataBuf : bytes) (filename : string)
    (checksums : option (list string)) : M unit :=
  let digest := sha256_hex dataBuf in
  (if checksum_rejected checksums digest then
     err_printf fmt_checksum
       [JS.Str filename;
        JS.Str (JS.join ", " (default [] checksums));
        JS.Str digest] ;;;
     exit 1
   else ret tt) ;;;
  mkpath filename default_dir_mode ;;;
  fd <- open filename open_flags file_mode ;;
  (if fd <? 0 then
     err_printf fmt_cannot_open [JS.Str filename] ;;; exit 1
   else ret tt) ;;;
  written <- write fd dataBuf 0 (byteLength dataBuf) ;;
  close fd ;;;
  (if negb (written =? byteLength dataBuf) then
     err_printf fmt_short_write
       [JS.Str filename; JS.Num written; JS.Num (byteLength dataBuf)] ;;;
     exit 1
   else ret tt) ;;;
  out_printf fmt_downloaded [JS.Str filename; JS.Num written].

(** [checksums = null] is [None]. *)
Definition download (url filename : string) (checksums : option (list string)) : M unit :=
  fetched <- urlGet url ;;
  match fetched with
  | None => err_print (fmt_fetch_failed url) ;;; exit 1
  | Some dataBuf => download_buffer dataBuf filename checksums
  end.

End Bootstrap.

(** ** The manifest

    [main] reads [boot/config.json] with [std.loadFile], hands the text
    to [std.parseExtJSON] and walks the value that comes back. *)

Module Value.

(** A number, as far as a condition tells numbers apart:
    [mantissa * 2 ^ exponent], an infinity, or [NaN]. *)
Inductive number :=
| Finite (mantissa exponent : Z)
| Infinite (negative : bool)
| NaN.

#[local] Unset Elimination Schemes.
Inductive value :=
| Undefined
| Null
| Boolean (b : bool)
| Number (x : number)
| Str (s : string)
| Array (items : list value)
| Object (fields : list (string * value)).
#[local] Set Elimination Schemes.

(** A value in a condition: [undefined], [null], [false], zero, [NaN]
    and the empty string are falsy; every array and object is truthy. *)
Definition truthy (v : value) : bool :=
  match v with
  | Undefined | Null => false
  | Boolean b => b
  | Number (Finite mantissa _) => negb (mantissa =? 0)
  | Number (Infinite _) => true
  | Number NaN => false
  | Str s => JS.truthy s
  | Array _ | Object _ => true
  end.

(** [null] and [undefined] have no properties: reading one throws. *)
Definition nullish (v : value) : bool :=
  match v with
  | Undefined | Null => true
  | _ => false
  end.

(** [v.key] for a [v] with properties and a [key] that no prototype
    defines, as [downloads], [url], [filename] and [checksums] are: only
    an object has it, when it is among its own [fields] (each name once). *)
Definition property (v : value) (key : string) : value :=
  match v with
  | Object fields =>
      match find (fun kv => String.eqb (fst kv) key) fields with
      | Some kv => snd kv
      | None => Undefined
      end
  | _ => Undefined
  end.

(** [Array.isArray(v)] *)
Definition isArray (v : value) : bool :=
  match v with
  | Array _ => true
  | _ => false
  end.

(** What [for (... of v)] goes through. *)
Definition elements (v : value) : list value :=
  match v with
  | Array items => items
  | _ => []
  end.

Definition as_string (v : value) : option string :=
  match v with
  | Str s => Some s
  | _ => None
  end.

Fixpoint as_strings (items : list value) : option (list string) :=
  match items with
  | [] => Some []
  | v :: rest =>
      match as_string v, as_strings rest with
      | Some s, Some ss => Some (s :: ss)
      | _, _ => None
      end
  end.

(** The third argument of [download], for the values it is embedded
    for: a falsy value ([undefined], which the default turns into
    [null], among them) fails the test [checksums && ...] as [null]
    does; an array of strings is itself. *)
Definition as_checksums (v : value) : option (option (list string)) :=
  if negb (truthy v) then Some None
  else match v with
       | Array items =>
           match as_strings items with
           | Some arr => Some (Some arr)
           | None => None
           end
       | _ => None
       end.

End Value.

(** What a call of [std.loadFile] or [std.parseExtJSON] can do to its
    caller: hand back a value, or throw. *)
Inductive answer :=
| Answers (v : Value.value)
| Throws (e : JS.error).

(** The host of the whole script: that of [mkpath] and [download], the
    two calls [main] adds, and the two things the interpreter does that
    are not written in the script. *)
Class ScriptHost := {
  script_os :: Host;
  (** [std.loadFile(path, encoding)] *)
  std_loadFile : string -> string -> world -> answer * world;
  (** [std.parseExtJSON(text)] *)
  std_parseExtJSON : Value.value -> world -> answer * world;
  (** The [TypeError] thrown when a property of [v], which is [null] or
      [undefined], is read. *)
  type_error : Value.value -> JS.error;
  (** [download(url, filename, checksums)] for truthy [url] and
      [filename] of which one is not a string, or for a truthy
      [checksums] that is not an array of strings. *)
  download_other :
    Value.value -> Value.value -> Value.value -> world -> result unit
}.

Section Main.
Context `{S : ScriptHost}.

(** The two calls that read the manifest are not entered in the record
    of calls: they come before everything the record is about. *)
Definition loadFile (path encoding : string) : M Value.value := fun w =>
  let '(a, w') := std_loadFile path encoding w in
  match a with
  | Answers v => Result (Returned v) w' []
  | Throws e => Result (Thrown e) w' []
  end.

Definition parseExtJSON (text : Value.value) : M Value.value := fun w =>
  let '(a, w') := std_parseExtJSON text w in
  match a with
  | Answers v => Result (Returned v) w' []
  | Throws e => Result (Thrown e) w' []
  end.

(** [v.key], for the keys [Value.property] is for. *)
Definition get (v : Value.value) (key : string) : M Value.value :=
  if Value.nullish v then throw (type_error v)
  else ret (Value.property v key).

Definition msg_cannot_read : string :=
  "Error: cannot read 'boot/config.json'" +:+ JS.nl.
Definition msg_invalid_json : string :=
  "Error: invalid JSON in 'boot/config.json'" +:+ JS.nl.
Definition msg_not_an_array : string :=
  "Error: 'downloads' must be an array in config" +:+ JS.nl.
Definition msg_invalid_entry : string :=
  "Invalid entry in config: missing url or filename" +:+ JS.nl.

(** [await download(url, filename, checksums)]: [download] does not
    wait for anything, so the call runs to its end on the spot, and
    what it throws is thrown on by [await]. *)
Definition call_download (url filename checksums : Value.value) : M unit :=
  match Value.as_string url, Value.as_string filename,
        Value.as_checksums checksums with
  | Some u, Some f, Some c => download u f c
  | _, _, _ => download_other url filename checksums
  end.

(** The body of the loop of [main], for one [entry]:
    [const { url, filename, checksums } = entry; ...] *)
Definition entry_body (entry : Value.value) : M unit :=
  url <- get entry "url" ;;
  filename <- get entry "filename" ;;
  checksums <- get entry "checksums" ;;
  (if negb (Value.truthy url) || negb (Value.truthy filename) then
     err_print msg_invalid_entry ;;; exit 1
   else ret tt) ;;;
  call_download url filename checksums.

(** [for (const entry of config.downloads) { ... }] *)
Fixpoint for_entries (entries : list Value.value) : M unit :=
  match entries with
  | [] => ret tt
  | entry :: rest => entry_body entry ;;; for_entries rest
  end.

(** [main]; a [Thrown] outcome is the rejection of the promise it
    returns, which nothing handles. *)
Definition main : M unit :=
  configText <-
    try_catch (loadFile "boot/config.json" "utf-8")
      (fun _ => err_print msg_cannot_read ;;; exit 1) ;;
  config <-
    try_catch (parseExtJSON configText)
      (fun _ => err_print msg_invalid_json ;;; exit 1) ;;
  downloads <- get config "downloads" ;;
  (if negb (Value.isArray downloads) then
     err_print msg_not_an_array ;;; exit 1
   else ret tt) ;;;
  for_entries (Value.elements downloads).

End Main.

(** ** The hashing module

    [./sha256.js], which [bootstrap.js] imports, is not among the
    sources.  The design fixes its contract as bit-exact standard
    SHA-256 on a raw byte buffer, rendered as lowercase hexadecimal;
    this module is that function, on 32-bit words kept in [Z]. *)

Module SHA256.

Definition w32 (x : Z) : Z := Z.land x 0xffffffff.
Definition add32 (x y : Z) : Z := w32 (x + y).
Definition rotr (n x : Z) : Z :=
  Z.lor (Z.shiftr x n) (w32 (Z.shiftl x (32 - n))).
Definition not32 (x : Z) : Z := Z.lxor x 0xffffffff.

Definition Ch (x y z : Z) : Z := Z.lxor (Z.land x y) (Z.land (not32 x) z).
Definition Maj (x y z : Z) : Z :=
  Z.lxor (Z.lxor (Z.land x y) (Z.land x z)) (Z.land y z).
Definition Sigma0 (x : Z) : Z := Z.lxor (Z.lxor (rotr 2 x) (rotr 13 x)) (rotr 22 x).
Definition Sigma1 (x : Z) : Z := Z.lxor (Z.lxor (rotr 6 x) (rotr 11 x)) (rotr 25 x).
Definition sigma0 (x : Z) : Z := Z.lxor (Z.lxor (rotr 7 x) (rotr 18 x)) (Z.shiftr x 3).
Definition sigma1 (x : Z) : Z := Z.lxor (Z.lxor (rotr 17 x) (rotr 19 x)) (Z.shiftr x 10).

Definition is_prime (n : Z) : bool :=
  forallb (fun d => negb (n mod d =? 0)) (map Z.of_nat (seq 2 (Z.to_nat n - 2))).

(** The first [count] primes, for [count] up to 64. *)
Definition primes (count : nat) : list Z :=
  take count (filter (fun n => is_prime n = true) (map Z.of_nat (seq 2 320))).

Fixpoint cube_root_bits (n : nat) (x acc : Z) : Z :=
  match n with
  | O => acc
  | S n' =>
      let c := acc + 2 ^ Z.of_nat n' in
      cube_root_bits n' x (if c * c * c <=? x then c else acc)
  end.

(** The integer cube root, for arguments below [2 ^ 120]. *)
Definition cube_root (x : Z) : Z := cube_root_bits 40 x 0.

(** The round constants: the first 32 bits of the fractional parts of
    the cube roots of the first 64 primes. *)
Definition K : list Z :=
  Eval vm_compute in map (fun p => cube_root (p * 2 ^ 96) mod 2 ^ 32) (primes 64).

(** The initial hash value: the first 32 bits of the fractional parts
    of the square roots of the first 8 primes. *)
Definition H0 : list Z :=
  Eval vm_compute in map (fun p => Z.sqrt (p * 2 ^ 64) mod 2 ^ 32) (primes 8).

Definition byte_val (b : byte) : Z := Z.of_N (Byte.to_N b).

(** Big-endian bytes of [x], [n] of them. *)
Fixpoint be_bytes (n : nat) (x : Z) : list Z :=
  match n with
  | O => []
  | S n' => Z.land (Z.shiftr x (8 * Z.of_nat n')) 0xff :: be_bytes n' x
  end.

Definition pad (msg : list Z) : list Z :=
  let len := Z.of_nat (List.length msg) in
  let zeros := Z.to_nat ((55 - len) mod 64) in
  msg ++ [0x80] ++ replicate zeros 0 ++ be_bytes 8 (8 * len).

Fixpoint be_words (n : nat) (bs : list Z) : list Z :=
  match n, bs with
  | S n', b0 :: b1 :: b2 :: b3 :: rest =>
      (Z.shiftl b0 24 + Z.shiftl b1 16 + Z.shiftl b2 8 + b3) :: be_words n' rest
  | _, _ => []
  end.

Definition word (ws : list Z) (i : nat) : Z := nth i ws 0.

Fixpoint schedule (n : nat) (ws : list Z) : list Z :=
  match n with
  | O => ws
  | S n' =>
      let t := List.length ws in
      let x := add32 (add32 (sigma1 (word ws (t - 2))) (word ws (t - 7)))
                     (add32 (sigma0 (word ws (t - 15))) (word ws (t - 16))) in
      schedule n' (ws ++ [x])
  end.

Definition round (st : list Z) (kw : Z * Z) : list Z :=
  match st with
  | [a; b; c; d; e; f; g; h] =>
      let t1 := add32 (add32 (add32 h (Sigma1 e)) (add32 (Ch e f g) kw.1)) kw.2 in
      let t2 := add32 (Sigma0 a) (Maj a b c) in
      [add32 t1 t2; a; b; c; add32 d t1; e; f; g]
  | _ => st
  end.

Definition compress (hs : list Z) (block : list Z) : list Z :=
  let ws := schedule 48 (be_words 16 block) in
  let st := fold_left round (combine K ws) hs in
  zip_with add32 hs st.

Fixpoint blocks (n : nat) (hs : list Z) (bs : list Z) : list Z :=
  match n with
  | O => hs
  | S n' => blocks n' (compress hs (take 64 bs)) (drop 64 bs)
  end.

Definition byte_of_val (x : Z) : byte :=
  default x00 (Byte.of_N (Z.to_N x)).

(** Modelled from the spec: [sha256(buf)] of the missing [sha256.js],
    the 32 bytes of the standard SHA-256 digest of [buf]. *)
Definition sha256 (buf : bytes) : bytes :=
  let padded := pad (map byte_val buf) in
  let hs := blocks (List.length padded / 64) H0 padded in
  map byte_of_val (flat_map (be_bytes 4) hs).

Definition hex_digit (x : Z) : ascii :=
  ascii_of_nat (Z.to_nat (if x <? 10 then 48 + x else 87 + x)).

(** Modelled from the spec: [arrayBufferToHex(buf)] of the missing
    [sha256.js], two lowercase hexadecimal digits a byte. *)
Fixpoint arrayBufferToHex (buf : bytes) : string :=
  match buf with
  | [] => EmptyString
  | b :: rest =>
      String (hex_digit (Z.shiftr (byte_val b) 4))
        (String (hex_digit (Z.land (byte_val b) 0xf)) (arrayBufferToHex rest))
  end.

(** Modelled from the spec: the digest step of [download],
    [sha256.arrayBufferToHex(sha256.sha256(buf))]. *)
Definition digest (buf : bytes) : string := arrayBufferToHex (sha256 buf).

End SHA256.

(** ** A reference host: an in-memory POSIX-like file system

    QuickJS' [os] module belongs to the interpreter, not to the
    repository.  The properties that speak of directories and files are
    stated on this host: a tree of directories and regular files keyed
    by absolute paths, with a working directory, a umask, owner
    permission bits, a quota of free space (which is what makes a write
    come back short) and a table of open descriptors.  [os.mkdir] either
    throws an error whose message names the errno, which is what the
    [catch] clause of [mkpath] expects, or returns the negated errno;
    the world says which. *)

Module Ref.

Inductive errno := EEXIST | ENOENT | ENOTDIR | EACCES | ENOSPC | EBADF | EISDIR.

#[global] Instance errno_eq_dec : EqDecision errno.
Proof. solve_decision. Defined.

Definition errno_code (e : errno) : Z :=
  match e with
  | ENOENT => 2 | EBADF => 9 | EACCES => 13 | EEXIST => 17
  | ENOTDIR => 20 | EISDIR => 21 | ENOSPC => 28
  end.

Definition errno_name (e : errno) : string :=
  match e with
  | EEXIST => "EEXIST" | ENOENT => "ENOENT" | ENOTDIR => "ENOTDIR"
  | EACCES => "EACCES" | ENOSPC => "ENOSPC" | EBADF => "EBADF"
  | EISDIR => "EISDIR"
  end.

Inductive node :=
| Dir (perm : Z)
| File (perm : Z) (data : bytes).

Record fs := Fs {
  nodes : gmap (list string) node;
  cwd : list string;
  umask : Z;
  free : nat;
  fds : gmap Z (list string * nat);
  next_fd : nat;
  net : gmap string bytes;
  mkdir_throws : bool
}.

Definition set_nodes (w : fs) (ns : gmap (list string) node) (fr : nat) : fs :=
  Fs ns (cwd w) (umask w) fr (fds w) (next_fd w) (net w) (mkdir_throws w).

Definition set_fds (w : fs) (t : gmap Z (list string * nat)) (nx : nat) : fs :=
  Fs (nodes w) (cwd w) (umask w) (free w) t nx (net w) (mkdir_throws w).

(** The owner may write: bit [0o200]. *)
Definition owner_writable (perm : Z) : bool := Z.testbit perm 7.
(** The owner may read: bit [0o400]. *)
Definition owner_readable (perm : Z) : bool := Z.testbit perm 8.

(** The permission bits a new node gets. *)
Definition masked (mode : Z) (um : Z) : Z := Z.land mode (Z.lnot um).

(** The non-empty segments of a path. *)
Definition segments (path : string) : list string :=
  filter (fun s => s ≠ "") (JS.split "/" path).

Definition absolute (path : string) : bool :=
  match path with
  | String c _ => Ascii.eqb c "/"
  | EmptyString => false
  end.

Definition ends_in_slash (path : string) : bool :=
  match last (JS.split "/" path) with
  | Some "" => true
  | _ => false
  end.

(** Follow [comps] from the directory [cur].  Every place the walk
    leaves must be a directory; the place it arrives at is not
    looked at. *)
Fixpoint walk (ns : gmap (list string) node) (cur comps : list string)
    : errno + list string :=
  match comps with
  | [] => inr cur
  | c :: cs =>
      match ns !! cur with
      | Some (Dir _) =>
          if String.eqb c "." then walk ns cur cs
          else if String.eqb c ".." then walk ns (removelast cur) cs
          else walk ns (cur ++ [c]) cs
      | Some (File _ _) => inl ENOTDIR
      | None => inl ENOENT
      end
  end.

(** The place a path names, whether or not anything is there. *)
Definition locate (w : fs) (path : string) : errno + list string :=
  if String.eqb path "" then inl ENOENT
  else walk (nodes w) (if absolute path then [] else cwd w) (segments path).

(** Creating an entry at [key] needs a writable parent directory and
    one unit of space. *)
Definition may_create (w : fs) (key : list string) : option errno :=
  match nodes w !! removelast key with
  | Some (Dir perm) =>
      if negb (owner_writable perm) then Some EACCES
      else if Nat.eqb (free w) 0 then Some ENOSPC
      else None
  | _ => Some ENOENT
  end.

Definition mkdir_errno (w : fs) (path : string) : errno + list string :=
  match locate w path with
  | inl e => inl e
  | inr key =>
      match nodes w !! key with
      | Some _ => inl EEXIST
      | None =>
          match may_create w key with
          | Some e => inl e
          | None => inr key
          end
      end
  end.

Definition mkdir (path : string) (mode : Z) (w : fs) : mkdir_result * fs :=
  match mkdir_errno w path with
  | inl e =>
      (if mkdir_throws w then MkdirThrows (JS.Error (errno_name e))
       else MkdirReturns (- errno_code e), w)
  | inr key =>
      (MkdirReturns 0,
       set_nodes w (<[key := Dir (masked mode (umask w))]> (nodes w)) (free w - 1)%nat)
  end.

Definition o_creat : Z := 64.
Definition o_rdwr : Z := 2.
Definition o_trunc : Z := 512.

Definition has_flag (flags flag : Z) : bool := Z.land flags flag =? flag.

(** The file an [open] ends up with, or why there is none. *)
Definition open_errno (w : fs) (path : string) (flags mode : Z)
    : errno + (list string * node * nat) :=
  match locate w path with
  | inl e => inl e
  | inr key =>
      if ends_in_slash path then inl EISDIR else
      match nodes w !! key with
      | Some (Dir _) => inl EISDIR
      | Some (File perm data) =>
          if has_flag flags o_rdwr && negb (owner_readable perm && owner_writable perm)
          then inl EACCES
          else if has_flag flags o_trunc
               then inr (key, File perm [], (free w + List.length data)%nat)
               else inr (key, File perm data, free w)
      | None =>
          if has_flag flags o_creat then
            match may_create w key with
            | Some e => inl e
            | None => inr (key, File (masked mode (umask w)) [], (free w - 1)%nat)
            end
          else inl ENOENT
      end
  end.

Definition open (path : string) (flags mode : Z) (w : fs) : Z * fs :=
  match open_errno w path flags mode with
  | inl e => (- errno_code e, w)
  | inr (key, n, fr) =>
      let fd := Z.of_nat (next_fd w) in
      (fd, set_fds (set_nodes w (<[key := n]> (nodes w)) fr)
                   (<[fd := (key, 0%nat)]> (fds w)) (S (next_fd w)))
  end.

Definition zero_byte : byte := x00.

(** Writing [chunk] at position [pos] of [data]; a gap is zero-filled. *)
Definition splice (data : bytes) (pos : nat) (chunk : bytes) : bytes :=
  take pos data ++ replicate (pos - List.length data) zero_byte
    ++ chunk ++ drop (pos + List.length chunk) data.

Definition write (fd : Z) (buf : bytes) (offset len : Z) (w : fs) : Z * fs :=
  match fds w !! fd with
  | None => (- errno_code EBADF, w)
  | Some (key, pos) =>
      match nodes w !! key with
      | Some (File perm data) =>
          let chunk := take (Z.to_nat len) (drop (Z.to_nat offset) buf) in
          let n := Nat.min (List.length chunk) (free w) in
          (Z.of_nat n,
           set_fds
             (set_nodes w (<[key := File perm (splice data pos (take n chunk))]> (nodes w))
                        (free w - n)%nat)
             (<[fd := (key, (pos + n)%nat)]> (fds w)) (next_fd w))
      | _ => (- errno_code EBADF, w)
      end
  end.

Definition close (fd : Z) (w : fs) : Z * fs :=
  match fds w !! fd with
  | None => (- errno_code EBADF, w)
  | Some _ => (0, set_fds w (delete fd (fds w)) (next_fd w))
  end.

Definition urlGet (url : string) (w : fs) : option bytes * fs := (net w !! url, w).

(** What a reader finds at [path]. *)
Definition read_file (w : fs) (path : string) : option bytes :=
  match locate w path with
  | inr key =>
      match nodes w !! key with
      | Some (File _ data) => Some data
      | _ => None
      end
  | inl _ => None
  end.

Definition is_directory (w : fs) (path : string) : bool :=
  match locate w path with
  | inr key =>
      match nodes w !! key with
      | Some (Dir _) => true
      | _ => false
      end
  | inl _ => false
  end.

(** The reference host, for a given digest function. *)
Definition host (digest : bytes -> string) : Host := {|
  world := fs;
  sha256_hex := digest;
  std_urlGet := urlGet;
  os_mkdir := mkdir;
  os_open := open;
  os_write := write;
  os_close := close;
  O_CREAT := o_creat;
  O_RDWR := o_rdwr;
  O_TRUNC := o_trunc
|}.

End Ref.

(** The reference host of the whole script.  [std.loadFile] reads the
    tree and answers [missing] where the path names no regular file;
    [parse] stands for [std.parseExtJSON]; neither changes anything.
    A call of [download] outside the types it is written for throws. *)
Definition ref_script_host (digest : bytes -> string) (missing : answer)
    (parse : Value.value -> answer) : ScriptHost := {|
  script_os := Ref.host digest;
  std_loadFile := fun path _ w =>
    (match Ref.read_file w path with
     | Some data => Answers (Value.Str (string_of_list_byte data))
     | None => missing
     end, w);
  std_parseExtJSON := fun text w => (parse text, w);
  type_error := fun _ => JS.Error "TypeError";
  download_other := fun _ _ _ => throw (H := Ref.host digest) (JS.Error "TypeError")
|}.

(** ** Vocabulary for stating what a run did *)


Definition is_mkdir (ev : event) : bool :=
  match ev with EvMkdir _ _ _ => true | _ => false end.

(** The calls that create, open, truncate or write something. *)
Definition mutates_fs (ev : event) : bool :=
  match ev with
  | EvMkdir _ _ _ | EvOpen _ _ _ _ | EvWrite _ _ _ _ _ => true
  | _ => false
  end.

(** What goes to the standard error stream. *)
Definition on_stderr (ev : event) : bool :=
  match ev with
  | EvErrPrint _ | EvErrPrintf _ _ => true
  | _ => false
  end.

(** The calls that open, write or close a descriptor. *)
Definition uses_descriptor (ev : event) : bool :=
  match ev with
  | EvOpen _ _ _ _ | EvWrite _ _ _ _ _ | EvClose _ _ => true
  | _ => false
  end.

Definition is_exit (ev : event) : bool :=
  match ev with EvExit _ => true | _ => false end.

(** The paths handed to [os.mkdir], in call order. *)
Definition mkdir_paths (tr : list event) : list string :=
  omap (fun ev => match ev with EvMkdir p _ _ => Some p | _ => None end) tr.

(** The successive values of [subpath] in the loop of [mkpath]. *)
Fixpoint subpaths (parts : list string) (subpath : string) : list string :=
  match parts with
  | [] => []
  | part :: rest =>
      let subpath := extend subpath part in
      subpath :: subpaths rest subpath
  end.

(** The paths [mkpath filePath] hands to [os.mkdir] when nothing stops it. *)
Definition mkpath_targets (filePath : string) : list string :=
  let idx := JS.lastIndexOf "/" filePath in
  if idx <=? 0 then []
  else subpaths (JS.split "/" (JS.slice0 filePath idx)) "".

Section RunShapes.
Context `{H : Host}.

(** One turn of the loop body of [mkpath]. *)
Definition mkdir_step (subpath : string) (mode : Z) (w : world) : result unit :=
  let '(a, w') := os_mkdir subpath mode w in
  let keep := Result (Returned tt) w' [EvMkdir subpath mode a] in
  match a with
  | MkdirReturns _ => keep
  | MkdirThrows e =>
      if JS.regex_test "EEXIST" (JS.message e) then keep
      else Result (Thrown e) w' [EvMkdir subpath mode a]
  end.

(** The tail of [download] once [mkpath] has returned in world [w1]. *)
Definition write_phase (dataBuf : bytes) (filename : string) (w1 : world)
    : result unit :=
  let '(fd, w2) := os_open filename open_flags file_mode w1 in
  let ev_open := EvOpen filename open_flags file_mode fd in
  if fd <? 0 then
    Result (Exited 1) w2
      [ev_open; EvErrPrintf fmt_cannot_open [JS.Str filename]; EvExit 1]
  else
    let '(n, w3) := os_write fd dataBuf 0 (byteLength dataBuf) w2 in
    let '(rc, w4) := os_close fd w3 in
    let ev_write := EvWrite fd dataBuf 0 (byteLength dataBuf) n in
    if n =? byteLength dataBuf then
      Result (Returned tt) w4
        [ev_open; ev_write; EvClose fd rc;
         EvOutPrintf fmt_downloaded [JS.Str filename; JS.Num n]]
    else
      Result (Exited 1) w4
        [ev_open; ev_write; EvClose fd rc;
         EvErrPrintf fmt_short_write
           [JS.Str filename; JS.Num n; JS.Num (byteLength dataBuf)];
         EvExit 1].

Definition checksum_failure (filename : string) (arr : list string)
    (digest : string) : list event :=
  [EvErrPrintf fmt_checksum
     [JS.Str filename; JS.Str (JS.join ", " arr); JS.Str digest];
   EvExit 1].

End RunShapes.

(** Where a run of [download] can end, spelled out: the fetch failed,
    the digest was rejected, [mkpath] threw, the open failed, the write
    came back short, or the file was written. *)
Inductive download_shape `{H : Host} (url filename : string)
    (checksums : option (list string)) (w : world) : result unit -> Prop :=
| ShapeNoFetch w' :
    std_urlGet url w = (None, w') ->
    download_shape url filename checksums w
      (Result (Exited 1) w'
         [EvUrlGet url None; EvErrPrint (fmt_fetch_failed url); EvExit 1])
| ShapeRejected P w' arr :
    std_urlGet url w = (Some P, w') ->
    checksums = Some arr ->
    JS.includes arr (sha256_hex P) = false ->
    download_shape url filename checksums w
      (Result (Exited 1) w'
         (EvUrlGet url (Some P) :: checksum_failure filename arr (sha256_hex P)))
| ShapeMkpathThrew P w' e :
    std_urlGet url w = (Some P, w') ->
    checksum_rejected checksums (sha256_hex P) = false ->
    res_outcome (mkpath filename default_dir_mode w') = Thrown e ->
    download_shape url filename checksums w
      (Result (Thrown e) (res_world (mkpath filename default_dir_mode w'))
         (EvUrlGet url (Some P) :: res_trace (mkpath filename default_dir_mode w')))
| ShapeCannotOpen P w' w2 fd :
    std_urlGet url w = (Some P, w') ->
    checksum_rejected checksums (sha256_hex P) = false ->
    res_outcome (mkpath filename default_dir_mode w') = Returned tt ->
    os_open filename open_flags file_mode
      (res_world (mkpath filename default_dir_mode w')) = (fd, w2) ->
    fd < 0 ->
    download_shape url filename checksums w
      (Result (Exited 1) w2
         (EvUrlGet url (Some P) :: res_trace (mkpath filename default_dir_mode w') ++
          [EvOpen filename open_flags file_mode fd;
           EvErrPrintf fmt_cannot_open [JS.Str filename]; EvExit 1]))
| ShapeWritten P w' w2 w3 w4 fd n rc :
    std_urlGet url w = (Some P, w') ->
    checksum_rejected checksums (sha256_hex P) = false ->
    res_outcome (mkpath filename default_dir_mode w') = Returned tt ->
    os_open filename open_flags file_mode
      (res_world (mkpath filename default_dir_mode w')) = (fd, w2) ->
    0 <= fd ->
    os_write fd P 0 (byteLength P) w2 = (n, w3) ->
    os_close fd w3 = (rc, w4) ->
    download_shape url filename checksums w
      (Result (if n =? byteLength P then Returned tt else Exited 1) w4
         (EvUrlGet url (Some P) :: res_trace (mkpath filename default_dir_mode w') ++
          [EvOpen filename open_flags file_mode fd;
           EvWrite fd P 0 (byteLength P) n; EvClose fd rc] ++
          (if n =? byteLength P
           then [EvOutPrintf fmt_downloaded [JS.Str filename; JS.Num n]]
           else [EvErrPrintf fmt_short_write
                   [JS.Str filename; JS.Num n; JS.Num (byteLength P)];
                 EvExit 1]))).

(** *** On the reference host *)

(** One world comes after another: same working directory, same way of
    reporting, and every entry still there. *)
Definition extends (w w' : Ref.fs) : Prop :=
  Ref.cwd w' = Ref.cwd w /\
  Ref.mkdir_throws w' = Ref.mkdir_throws w /\
  Ref.nodes w ⊆ Ref.nodes w'.

(** Something is already at [path]. *)
Definition occupied (w : Ref.fs) (path : string) : Prop :=
  Ref.mkdir_errno w path = inl Ref.EEXIST.

(** [os.mkdir] refuses [t], and where it throws it refuses it as
    already there: asking again changes nothing and is not an error. *)
Definition settled (w : Ref.fs) (t : string) : Prop :=
  exists e, Ref.mkdir_errno w t = inl e /\
            (Ref.mkdir_throws w = true -> e = Ref.EEXIST).

(** From [w] to [w'] nothing was removed or altered, what was added are
    directories with the bits [mode] less the umask, and everything
    else but the free space is as it was. *)
Definition only_directories_added (mode : Z) (w w' : Ref.fs) : Prop :=
  Ref.nodes w ⊆ Ref.nodes w' /\
  (forall k v, Ref.nodes w' !! k = Some v ->
     Ref.nodes w !! k = Some v \/ v = Ref.Dir (Ref.masked mode (Ref.umask w))) /\
  Ref.cwd w' = Ref.cwd w /\
  Ref.umask w' = Ref.umask w /\
  Ref.fds w' = Ref.fds w /\
  Ref.next_fd w' = Ref.next_fd w /\
  Ref.net w' = Ref.net w /\
  Ref.mkdir_throws w' = Ref.mkdir_throws w /\
  (Ref.free w' <= Ref.free w)%nat.


(** ** Worlds to run the script in *)

Module Demo.

Definition url : string := "https://example/a.bin".
Definition destination : string := "out/dir/a.bin".
Definition payload : bytes := [x01; x02; x03; x04].

Definition host : Host := Ref.host SHA256.digest.

(** A root and a home directory, the process in the home directory,
    umask [0o022], and [url] serving [payload]. *)
Definition world_with (free : nat) (throws : bool) : Ref.fs :=
  Ref.Fs {[ [] := Ref.Dir default_dir_mode; ["home"] := Ref.Dir default_dir_mode ]}
         ["home"] 18 free ∅ 3 {[ url := payload ]} throws.

Definition roomy : Ref.fs := world_with 1000 true.

(** Room for the two directories, the file, and one byte. *)
Definition cramped : Ref.fs := world_with 4 true.

(** [os.mkdir] reports failures by its return value here. *)
Definition quiet : Ref.fs := world_with 1000 false.

(** As [roomy], but [out] is there already and a regular file sits at
    [out/dir]. *)
Definition blocked : Ref.fs :=
  Ref.Fs {[ [] := Ref.Dir default_dir_mode;
            ["home"] := Ref.Dir default_dir_mode;
            ["home"; "out"] := Ref.Dir default_dir_mode;
            ["home"; "out"; "dir"] := Ref.File (6 * 64 + 4 * 8 + 4) [x2a] ]}
         ["home"] 18 1000 ∅ 3 {[ url := payload ]} true.

(** As [quiet], but the home directory is [0o555]: nothing can be
    created in it. *)
Definition locked : Ref.fs :=
  Ref.Fs {[ [] := Ref.Dir default_dir_mode; ["home"] := Ref.Dir (5 * 64 + 5 * 8 + 5) ]}
         ["home"] 18 1000 ∅ 3 {[ url := payload ]} false.

End Demo.

(** Worlds with a manifest. *)
Module Boot.

Definition second_url : string := "https://example/b.bin".
Definition second_destination : string := "out/b.bin".
Definition second_payload : bytes := [x0a; x0b].

Definition entry (url filename : string) : Value.value :=
  Value.Object [("url", Value.Str url); ("filename", Value.Str filename)].

(** Two entries. *)
Definition two_files : list Value.value :=
  [entry Demo.url Demo.destination; entry second_url second_destination].

Definition two_files_text : string :=
  "{ downloads: [ { url: 'https://example/a.bin', filename: 'out/dir/a.bin' },"
  +:+ " { url: 'https://example/b.bin', filename: 'out/b.bin' } ] }".

(** An entry without a [filename] between two good ones. *)
Definition nameless : Value.value :=
  Value.Object [("url", Value.Str second_url)].

Definition one_nameless : list Value.value :=
  [entry Demo.url Demo.destination; nameless; entry second_url second_destination].

Definition one_nameless_text : string :=
  "{ downloads: [ { url: 'https://example/a.bin', filename: 'out/dir/a.bin' },"
  +:+ " { url: 'https://example/b.bin' },"
  +:+ " { url: 'https://example/b.bin', filename: 'out/b.bin' } ] }".

(** The parser, on the two texts above and on [null]. *)
Definition parse (text : Value.value) : answer :=
  match text with
  | Value.Str s =>
      if String.eqb s two_files_text then
        Answers (Value.Object [("downloads", Value.Array two_files)])
      else if String.eqb s one_nameless_text then
        Answers (Value.Object [("downloads", Value.Array one_nameless)])
      else Throws (JS.Error "SyntaxError")
  | Value.Null => Answers Value.Null
  | _ => Throws (JS.Error "SyntaxError")
  end.

(** [std.loadFile] answers [null] for a file that is not there. *)
Definition host : ScriptHost :=
  ref_script_host SHA256.digest (Answers Value.Null) parse.

(** As [Demo.roomy], with [boot/config.json] holding [text] and a
    second address to fetch from. *)
Definition world_with (text : string) : Ref.fs :=
  Ref.Fs {[ [] := Ref.Dir default_dir_mode;
            ["home"] := Ref.Dir default_dir_mode;
            ["home"; "boot"] := Ref.Dir default_dir_mode;
            ["home"; "boot"; "config.json"] :=
              Ref.File (6 * 64 + 4 * 8 + 4) (list_byte_of_string text) ]}
         ["home"] 18 1000 ∅ 3
         {[ Demo.url := Demo.payload; second_url := second_payload ]} true.

End Boot.

(** ** The hashing module on the standard test vectors *)

Example sha256_of_nothing :
  SHA256.digest [] =
    "e3b0c44298fc1c149afbf4c8996fb92427ae41e4649b934ca495991b7852b855".
Proof. vm_compute. reflexivity. Qed.

Example sha256_of_abc :
  SHA256.digest [x61; x62; x63] =
    "ba7816bf8f01cfea414140de5dae2223b00361a396177a9cb410ff61f20015ad".
Proof. vm_compute. reflexivity. Qed.

(** A message of 56 bytes, whose padding runs into a second block. *)
Example sha256_of_two_blocks :
  SHA256.digest (replicate 56 x61) =
    "b35439a4ac6f0948b6d6f9e3c6af0f5f590ce20f1bde7090ef7970686ec6738a".
Proof. vm_compute. reflexivity. Qed.

Example sha256_of_payload :
  SHA256.digest Demo.payload =
    "9f64a747e1b97f131fabb6b447296c9b6f0201e79fb3c5356e6c77e89b6a806a".
Proof. vm_compute. reflexivity. Qed.

(** ** What a run looks like, on any host *)

Section Runs.
Context `{H : Host}.

Lemma prepend_nil {A} (r : result A) : prepend [] r = r.
Proof. by destruct r. Qed.

Lemma try_mkdir_run subpath mode w :
  try_mkdir subpath mode w = mkdir_step subpath mode w.
Proof.
  unfold try_mkdir, try_catch, bind, mkdir, mkdir_step, mkdir_handler, throw, ret.
  destruct (os_mkdir subpath mode w) as [[rc|e] w']; simpl; [done|].
  destruct (JS.regex_test "EEXIST" (JS.message e)); done.
Qed.

Lemma mkpath_loop_cons part rest subpath mode w :
  mkpath_loop (part :: rest) subpath mode w =
    let sp := extend subpath part in
    let r := mkdir_step sp mode w in
    match res_outcome r with
    | Returned _ => prepend (res_trace r) (mkpath_loop rest sp mode (res_world r))
    | Thrown e => Result (Thrown e) (res_world r) (res_trace r)
    | Exited c => Result (Exited c) (res_world r) (res_trace r)
    end.
Proof. simpl. unfold bind at 1. by rewrite try_mkdir_run. Qed.

Lemma mkdir_step_trace subpath mode w :
  exists a, res_trace (mkdir_step subpath mode w) = [EvMkdir subpath mode a]
            /\ a = (os_mkdir subpath mode w).1.
Proof.
  unfold mkdir_step. destruct (os_mkdir subpath mode w) as [[rc|e] w']; simpl.
  - eauto.
  - destruct (JS.regex_test _ _); eauto.
Qed.

Lemma mkdir_step_not_exited subpath mode w c :
  res_outcome (mkdir_step subpath mode w) <> Exited c.
Proof.
  unfold mkdir_step. destruct (os_mkdir subpath mode w) as [[rc|e] w']; simpl.
  - done.
  - destruct (JS.regex_test _ _); done.
Qed.

Lemma mkpath_loop_only_mkdir parts : forall subpath mode w,
  Forall (fun ev => is_mkdir ev = true) (res_trace (mkpath_loop parts subpath mode w)).
Proof.
  induction parts as [|part rest IH]; intros subpath mode w.
  - constructor.
  - rewrite mkpath_loop_cons. cbv zeta.
    destruct (mkdir_step_trace (extend subpath part) mode w) as (a & Htr & _).
    destruct (res_outcome (mkdir_step (extend subpath part) mode w)); simpl;
      rewrite Htr; repeat constructor.
    apply IH.
Qed.

Lemma mkpath_only_mkdir filePath mode w :
  Forall (fun ev => is_mkdir ev = true) (res_trace (mkpath filePath mode w)).
Proof.
  unfold mkpath. destruct (_ <=? 0).
  - constructor.
  - apply mkpath_loop_only_mkdir.
Qed.

Lemma mkpath_loop_not_exited parts : forall subpath mode w c,
  res_outcome (mkpath_loop parts subpath mode w) <> Exited c.
Proof.
  induction parts as [|part rest IH]; intros subpath mode w c.
  - done.
  - rewrite mkpath_loop_cons. cbv zeta.
    pose proof (mkdir_step_not_exited (extend subpath part) mode w) as Hne.
    destruct (res_outcome (mkdir_step (extend subpath part) mode w)); simpl.
    + apply IH.
    + done.
    + exfalso. by eapply Hne.
Qed.

Lemma mkpath_not_exited filePath mode w c :
  res_outcome (mkpath filePath mode w) <> Exited c.
Proof.
  unfold mkpath. destruct (_ <=? 0); [done|]. apply mkpath_loop_not_exited.
Qed.

(** [download_buffer], one branch at a time. *)
Lemma download_buffer_run dataBuf filename checksums w :
  download_buffer dataBuf filename checksums w =
    if checksum_rejected checksums (sha256_hex dataBuf) then
      Result (Exited 1) w
        (checksum_failure filename (default [] checksums) (sha256_hex dataBuf))
    else
      let r1 := mkpath filename default_dir_mode w in
      match res_outcome r1 with
      | Returned _ =>
          prepend (res_trace r1) (write_phase dataBuf filename (res_world r1))
      | Thrown e => Result (Thrown e) (res_world r1) (res_trace r1)
      | Exited c => Result (Exited c) (res_world r1) (res_trace r1)
      end.
Proof.
  unfold download_buffer.
  destruct (checksum_rejected checksums (sha256_hex dataBuf)); [done|].
  set (tail := bind (mkpath _ _) _).
  transitivity (prepend [] (tail w)); [done|].
  rewrite prepend_nil. subst tail.
  unfold bind at 1.
  destruct (mkpath filename default_dir_mode w) as [[[]|e|c] w1 tr1];
    [|done|done].
  cbv zeta. simpl. f_equal.
  unfold write_phase, bind, open, write, close, err_printf, out_printf,
    emit, exit, ret.
  destruct (os_open _ _ _ _) as [fd w2]; simpl.
  destruct (fd <? 0); simpl; [done|].
  destruct (os_write _ _ _ _ _) as [n w3]; simpl.
  destruct (os_close _ _) as [rc w4]; simpl.
  destruct (n =? byteLength dataBuf); simpl; by rewrite ?app_nil_r.
Qed.

Lemma download_run url filename checksums w :
  download url filename checksums w =
    let '(a, w') := std_urlGet url w in
    match a with
    | None =>
        Result (Exited 1) w'
          [EvUrlGet url None; EvErrPrint (fmt_fetch_failed url); EvExit 1]
    | Some dataBuf =>
        prepend [EvUrlGet url (Some dataBuf)]
          (download_buffer dataBuf filename checksums w')
    end.
Proof.
  unfold download, bind at 1, urlGet.
  destruct (std_urlGet url w) as [[dataBuf|] w']; simpl; done.
Qed.

End Runs.

Section Targets.
Context `{H : Host}.

Lemma mkpath_loop_paths parts : forall subpath mode w,
  let r := mkpath_loop parts subpath mode w in
  mkdir_paths (res_trace r) `prefix_of` subpaths parts subpath /\
  (forall u, res_outcome r = Returned u ->
             mkdir_paths (res_trace r) = subpaths parts subpath).
Proof.
  induction parts as [|part rest IH]; intros subpath mode w.
  - split; [apply prefix_nil | done].
  - cbv zeta. rewrite mkpath_loop_cons. cbv zeta.
    destruct (mkdir_step_trace (extend subpath part) mode w) as (a & Htr & _).
    destruct (res_outcome (mkdir_step (extend subpath part) mode w)) eqn:E.
    + destruct (IH (extend subpath part) mode
                  (res_world (mkdir_step (extend subpath part) mode w)))
        as [Hpre Hall].
      unfold prepend. simpl res_trace. simpl res_outcome.
      rewrite Htr. simpl. split.
      * by apply prefix_cons.
      * intros u Hu. f_equal. by eapply Hall.
    + simpl. rewrite Htr. simpl. split; [|done].
      apply prefix_cons, prefix_nil.
    + exfalso. by eapply mkdir_step_not_exited.
Qed.

Lemma mkpath_paths filePath mode w :
  let r := mkpath filePath mode w in
  mkdir_paths (res_trace r) `prefix_of` mkpath_targets filePath /\
  (forall u, res_outcome r = Returned u ->
             mkdir_paths (res_trace r) = mkpath_targets filePath).
Proof.
  unfold mkpath, mkpath_targets. destruct (_ <=? 0).
  - split; [apply prefix_nil | done].
  - apply mkpath_loop_paths.
Qed.

End Targets.

(** ** Properties of [download] on any host *)

Lemma includes_In (arr : list string) (x : string) :
  JS.includes arr x = true <-> In x arr.
Proof.
  unfold JS.includes. rewrite existsb_exists. split.
  - intros (y & Hy & Heq). apply String.eqb_eq in Heq. by subst.
  - intros Hin. exists x. split; [done | apply String.eqb_refl].
Qed.

Lemma only_mkdir_not_in (tr : list event) (ev : event) :
  Forall (fun ev => is_mkdir ev = true) tr -> is_mkdir ev = false -> ~ In ev tr.
Proof.
  intros Hall Hev Hin. rewrite Forall_forall in Hall.
  apply list_elem_of_In, Hall in Hin. congruence.
Qed.

Lemma download_has_shape `{H : Host} url filename checksums w :
  download_shape url filename checksums w (download url filename checksums w).
Proof.
  rewrite download_run.
  destruct (std_urlGet url w) as [[P|] w'] eqn:Hget; [|by constructor].
  rewrite download_buffer_run.
  destruct (checksum_rejected checksums (sha256_hex P)) eqn:Hrej.
  { destruct checksums as [arr|]; [|done]. simpl in Hrej.
    apply negb_true_iff in Hrej. by eapply ShapeRejected. }
  cbv zeta.
  destruct (res_outcome (mkpath filename default_dir_mode w')) as [[]|e|c] eqn:Hmk.
  - unfold write_phase.
    destruct (os_open _ _ _ _) as [fd w2] eqn:Hopen.
    destruct (fd <? 0) eqn:Hfd.
    + apply Z.ltb_lt in Hfd. by eapply ShapeCannotOpen.
    + apply Z.ltb_ge in Hfd.
      destruct (os_write _ _ _ _ _) as [n w3] eqn:Hwrite.
      destruct (os_close _ _) as [rc w4] eqn:Hclose.
      pose proof (ShapeWritten url filename checksums w P w' w2 w3 w4 fd n rc
                    Hget Hrej Hmk Hopen Hfd Hwrite Hclose) as Hshape.
      destruct (n =? byteLength P); exact Hshape.
  - by eapply ShapeMkpathThrew.
  - exfalso. by eapply mkpath_not_exited.
Qed.

(** Which call of a run a membership hypothesis [H] speaks of: the
    cases left are equations between events; a call that is not
    [os.mkdir] is not among those of [mkpath]. *)
Ltac in_cases H :=
  repeat match type of H with
    | In _ (_ :: _) => destruct H as [H|H]
    | In _ (_ ++ _) => apply in_app_or in H as [H|H]
    | In _ [] => destruct H
    | In _ (if ?b then _ else _) => destruct b eqn:?
    | In _ (res_trace (mkpath _ _ _)) =>
        exfalso; revert H;
        apply only_mkdir_not_in; [apply mkpath_only_mkdir | reflexivity]
    end.

(** Split on how the run of [download] that [Hin] speaks of ended, and
    find the call [Hin] speaks of. *)
Ltac run_cases Hin :=
  match type of Hin with
  | In _ (res_trace (@download ?H ?url ?filename ?checksums ?w)) =>
      destruct (@download_has_shape H url filename checksums w)
        as [w1|P0 w1 arr0 Hget Hsome Hinc|P0 w1 e0 Hget Hrej Hmk
           |P0 w1 w2 fd0 Hget Hrej Hmk Hopen Hfd
           |P0 w1 w2 w3 w4 fd0 n0 rc0 Hget Hrej Hmk Hopen Hfd Hwrite Hclose];
      unfold checksum_failure in *;
      cbn [res_trace res_outcome res_world] in Hin |- *;
      in_cases Hin; try discriminate Hin
  end.

(** C4: when the fetched payload's digest is not in the provided array,
    [download] prints the checksum diagnostic, carrying the file name,
    the expected digests and the computed digest, and leaves through
    [os.exit(1)]; nothing else is called after the fetch. *)
Theorem download_rejects_foreign_digest `{H : Host}
    (url filename : string) (expected : list string) (w w' : world) (P : bytes) :
  std_urlGet url w = (Some P, w') ->
  ~ In (sha256_hex P) expected ->
  download url filename (Some expected) w =
    Result (Exited 1) w'
      [EvUrlGet url (Some P);
       EvErrPrintf fmt_checksum
         [JS.Str filename; JS.Str (JS.join ", " expected); JS.Str (sha256_hex P)];
       EvExit 1].
Proof.
  intros Hget Hnot. rewrite download_run, Hget, download_buffer_run. simpl.
  destruct (JS.includes expected (sha256_hex P)) eqn:E.
  - apply includes_In in E. contradiction.
  - done.
Qed.

Lemma download_rejects_foreign_digest_witness :
  download (H := Demo.host) Demo.url Demo.destination (Some ["deadbeef"]) Demo.roomy =
    Result (H := Demo.host) (Exited 1) Demo.roomy
      [EvUrlGet Demo.url (Some Demo.payload);
       EvErrPrintf fmt_checksum
         [JS.Str Demo.destination; JS.Str "deadbeef";
          JS.Str "9f64a747e1b97f131fabb6b447296c9b6f0201e79fb3c5356e6c77e89b6a806a"];
       EvExit 1].
Proof.
  apply (download_rejects_foreign_digest (H := Demo.host)
           Demo.url Demo.destination ["deadbeef"] Demo.roomy Demo.roomy Demo.payload).
  - reflexivity.
  - vm_compute. intros [Heq|[]]. discriminate Heq.
Defined.

(** C6: when [os.write] reports a count other than the length of the
    payload, fewer in particular, [download] closes the descriptor,
    prints the short-write diagnostic with the file name, the count
    written and the payload length, and leaves through [os.exit(1)]. *)
Theorem short_write_is_reported `{H : Host}
    (url filename : string) (checksums : option (list string)) (w : world)
    (fd : Z) (buf : bytes) (offset len n : Z) :
  let r := download url filename checksums w in
  In (EvWrite fd buf offset len n) (res_trace r) ->
  n <> len ->
  res_outcome r = Exited 1 /\
  len = byteLength buf /\
  exists tr rc,
    res_trace r =
      tr ++ [EvWrite fd buf offset len n; EvClose fd rc;
             EvErrPrintf fmt_short_write [JS.Str filename; JS.Num n; JS.Num len];
             EvExit 1].
Proof.
  intros r Hin Hne. subst r.
  run_cases Hin.
  injection Hin as -> -> -> -> ->.
  destruct (n =? len) eqn:En; [apply Z.eqb_eq in En; done|].
  split; [done|]. split; [done|].
  exists (EvUrlGet url (Some buf) :: res_trace (mkpath filename default_dir_mode w1)
            ++ [EvOpen filename open_flags file_mode fd]), rc0.
  simpl. by rewrite <- app_assoc.
Qed.

Lemma short_write_is_reported_witness :
  let r := download (H := Demo.host) Demo.url Demo.destination None Demo.cramped in
  res_outcome r = Exited 1 /\
  4 = byteLength Demo.payload /\
  exists tr rc,
    res_trace r =
      tr ++ [EvWrite 3 Demo.payload 0 4 1; EvClose 3 rc;
             EvErrPrintf fmt_short_write
               [JS.Str Demo.destination; JS.Num 1; JS.Num 4];
             EvExit 1].
Proof.
  apply (short_write_is_reported (H := Demo.host)
           Demo.url Demo.destination None Demo.cramped 3 Demo.payload 0 4 1).
  - vm_compute. do 4 right. left. reflexivity.
  - lia.
Defined.

(** C7: a run of [download] that prints the checksum diagnostic leaves
    through [os.exit(1)] having called neither [os.mkdir] nor [os.open]
    nor [os.write]: the verification comes before [mkpath] and the write,
    and the world is the one the fetch left. *)
Theorem checksum_failure_touches_nothing `{H : Host}
    (url filename : string) (checksums : option (list string)) (w : world)
    (args : list JS.arg) :
  let r := download url filename checksums w in
  In (EvErrPrintf fmt_checksum args) (res_trace r) ->
  res_outcome r = Exited 1 /\
  Forall (fun ev => mutates_fs ev = false) (res_trace r) /\
  res_world r = (std_urlGet url w).2.
Proof.
  intros r Hin. subst r.
  run_cases Hin.
  rewrite Hget. split; [done|]. split; [|done]. by repeat constructor.
Qed.

Lemma checksum_failure_touches_nothing_witness :
  let r := download (H := Demo.host) Demo.url Demo.destination
             (Some ["deadbeef"]) Demo.roomy in
  res_outcome r = Exited 1 /\
  Forall (fun ev => mutates_fs ev = false) (res_trace r) /\
  res_world r = Demo.roomy.
Proof.
  apply (checksum_failure_touches_nothing (H := Demo.host)
           Demo.url Demo.destination (Some ["deadbeef"]) Demo.roomy
           [JS.Str Demo.destination; JS.Str "deadbeef";
            JS.Str "9f64a747e1b97f131fabb6b447296c9b6f0201e79fb3c5356e6c77e89b6a806a"]).
  vm_compute. right. left. reflexivity.
Defined.

(** ** Properties of [mkpath] on any host *)



(** C10: whenever [download] opens something, it opens the destination,
    with [O_CREAT | O_RDWR | O_TRUNC] and the mode [0x755]; a run that
    reaches the write has done so.  [0x755] is 1877, which is [0o3525]
    and not the [0o755] that [mkpath] gives directories by default; it
    lacks the owner's write bit, so whatever the umask removes from it,
    the bits a new file gets are never [0o755]. *)
Theorem destination_opened_with_hex_755 `{H : Host}
    (url filename : string) (checksums : option (list string)) (w : world) :
  let r := download url filename checksums w in
  (forall path flags mode fd, In (EvOpen path flags mode fd) (res_trace r) ->
     path = filename /\ flags = open_flags /\ mode = file_mode) /\
  (forall fd buf offset len n, In (EvWrite fd buf offset len n) (res_trace r) ->
     In (EvOpen filename open_flags file_mode fd) (res_trace r)) /\
  file_mode = 1877 /\
  file_mode = 3 * 512 + 5 * 64 + 2 * 8 + 5 /\
  default_dir_mode = 493 /\
  file_mode <> default_dir_mode /\
  (forall um, Ref.masked file_mode um <> default_dir_mode).
Proof.
  cbv zeta. split; [|split].
  - intros path flags mode fd Hin.
    run_cases Hin; by injection Hin as <- <- <- _.
  - intros fd buf offset len n Hin.
    run_cases Hin.
    injection Hin as <- _ _ _ _.
    right. apply in_or_app. right. by left.
  - repeat split; try done.
    intros um Heq.
    assert (Hbit : Z.testbit (Ref.masked file_mode um) 7 = true)
      by (by rewrite Heq).
    unfold Ref.masked in Hbit. rewrite Z.land_spec in Hbit. discriminate Hbit.
Qed.

(** ** The reference host: opening, writing and reading back *)

Section RefFiles.
Variable digest : bytes -> string.

Lemma errno_code_pos (e : Ref.errno) : 0 < Ref.errno_code e.
Proof. by destruct e. Qed.

Lemma ref_open_flags :
  Ref.has_flag (open_flags (H := Ref.host digest)) Ref.o_creat = true /\
  Ref.has_flag (open_flags (H := Ref.host digest)) Ref.o_trunc = true /\
  Ref.has_flag (open_flags (H := Ref.host digest)) Ref.o_rdwr = true.
Proof. done. Qed.

(** Putting a regular file where there was no directory does not move
    any path that could be followed. *)
Lemma walk_insert_file ns key perm data comps : forall cur k,
  (forall p, ns !! key <> Some (Ref.Dir p)) ->
  Ref.walk ns cur comps = inr k ->
  Ref.walk (<[key := Ref.File perm data]> ns) cur comps = inr k.
Proof.
  induction comps as [|c cs IH]; intros cur k Hkey Hwalk; [done|].
  simpl in *.
  destruct (ns !! cur) as [[p|p d]|] eqn:Hcur; [|done|done].
  assert (key <> cur) as Hne by (intros ->; by eapply Hkey).
  rewrite lookup_insert_ne, Hcur by done.
  destruct (String.eqb c "."); [by apply IH|].
  destruct (String.eqb c ".."); by apply IH.
Qed.

(** What a successful [open] with the flags of [download] leaves. *)
Lemma ref_open_ok filename w1 fd w2 :
  Ref.open filename (open_flags (H := Ref.host digest)) file_mode w1 = (fd, w2) ->
  0 <= fd ->
  exists key perm fr,
    Ref.locate w1 filename = inr key /\
    (forall p, Ref.nodes w1 !! key <> Some (Ref.Dir p)) /\
    (Ref.nodes w1 !! key = None -> perm = Ref.masked file_mode (Ref.umask w1)) /\
    (forall p d, Ref.nodes w1 !! key = Some (Ref.File p d) -> perm = p) /\
    fd = Z.of_nat (Ref.next_fd w1) /\
    w2 = Ref.set_fds
           (Ref.set_nodes w1 (<[key := Ref.File perm []]> (Ref.nodes w1)) fr)
           (<[fd := (key, 0%nat)]> (Ref.fds w1)) (S (Ref.next_fd w1)).
Proof.
  unfold Ref.open, Ref.open_errno. intros Hopen Hfd.
  destruct (Ref.locate w1 filename) as [e|key] eqn:Hloc.
  { injection Hopen as <- _. pose proof (errno_code_pos e). lia. }
  destruct (Ref.ends_in_slash filename).
  { injection Hopen as <- _. pose proof (errno_code_pos Ref.EISDIR). lia. }
  destruct (Ref.nodes w1 !! key) as [[p|p d]|] eqn:Hkey.
  - injection Hopen as <- _. pose proof (errno_code_pos Ref.EISDIR). lia.
  - destruct (_ && _).
    { injection Hopen as <- _. pose proof (errno_code_pos Ref.EACCES). lia. }
    destruct ref_open_flags as (_ & Htrunc & _). rewrite Htrunc in Hopen.
    injection Hopen as <- <-.
    exists key, p, (Ref.free w1 + List.length d)%nat.
    rewrite Hkey. split; [done|]. split; [done|]. split; [done|].
    split; [by intros ? ? [= -> _] | done].
  - destruct ref_open_flags as (Hcreat & _ & _). rewrite Hcreat in Hopen.
    destruct (Ref.may_create w1 key) as [e|].
    { injection Hopen as <- _. pose proof (errno_code_pos e). lia. }
    injection Hopen as <- <-.
    exists key, (Ref.masked file_mode (Ref.umask w1)), (Ref.free w1 - 1)%nat.
    rewrite Hkey. by repeat (split; [done|]).
Qed.

(** [open], a complete [write] and [close] in a row: the file holds
    exactly the buffer, and no other entry of the tree changed. *)
Lemma ref_open_write_close filename P w1 fd w2 n w3 rc w4 :
  Ref.open filename (open_flags (H := Ref.host digest)) file_mode w1 = (fd, w2) ->
  0 <= fd ->
  Ref.write fd P 0 (byteLength P) w2 = (n, w3) ->
  n = byteLength P ->
  Ref.close fd w3 = (rc, w4) ->
  Ref.read_file w4 filename = Some P /\
  exists key perm,
    Ref.locate w1 filename = inr key /\
    Ref.nodes w4 = <[key := Ref.File perm P]> (Ref.nodes w1) /\
    (Ref.nodes w1 !! key = None -> perm = Ref.masked file_mode (Ref.umask w1)).
Proof.
  intros Hopen Hfd Hwrite Hn Hclose.
  destruct (ref_open_ok _ _ _ _ Hopen Hfd)
    as (key & perm & fr & Hloc & Hnodir & Hfresh & _ & Hfdv & ->).
  unfold Ref.write in Hwrite. cbn [Ref.fds Ref.set_fds Ref.nodes Ref.set_nodes] in Hwrite.
  rewrite !lookup_insert_eq in Hwrite.
  cbn [Ref.free Ref.next_fd] in Hwrite.
  rewrite drop_0 in Hwrite.
  unfold byteLength in Hwrite, Hn. rewrite Nat2Z.id, firstn_all in Hwrite.
  injection Hwrite as Hnv <-. rewrite <- Hnv in Hn. apply Nat2Z.inj in Hn.
  rewrite Hn, firstn_all in Hclose.
  unfold Ref.close in Hclose. cbn [Ref.fds Ref.set_fds] in Hclose.
  rewrite lookup_insert_eq in Hclose. injection Hclose as _ <-.
  cbn [Ref.nodes Ref.set_fds Ref.set_nodes].
  unfold Ref.splice. rewrite insert_insert_eq. simpl.
  rewrite drop_nil, app_nil_r. split.
  - unfold Ref.read_file, Ref.locate in *.
    cbn [Ref.nodes Ref.cwd Ref.set_fds Ref.set_nodes].
    destruct (String.eqb filename ""); [done|].
    rewrite (walk_insert_file _ key perm P _ _ key Hnodir Hloc).
    by rewrite lookup_insert_eq.
  - by exists key, perm.
Qed.

End RefFiles.

(** The checksum diagnostic is printed only for a provided array that
    does not include the digest of the fetched payload. *)
Lemma checksum_diagnostic_means_rejected `{H : Host}
    (url filename : string) (checksums : option (list string)) (w : world)
    (args : list JS.arg) :
  In (EvErrPrintf fmt_checksum args) (res_trace (download url filename checksums w)) ->
  exists P w' arr,
    std_urlGet url w = (Some P, w') /\
    checksums = Some arr /\
    JS.includes arr (sha256_hex P) = false.
Proof.
  intros Hin.
  run_cases Hin.
  by exists P0, w1, arr0.
Qed.

(** ** [download] on the reference host *)

(** A run on the reference host whose write reported the whole payload
    returned, and a reader finds the payload at the destination. *)
Lemma ref_full_write_succeeds (digest : bytes -> string)
    (url filename : string) (checksums : option (list string)) (w : Ref.fs)
    (fd : Z) (P : bytes) :
  let r := download (H := Ref.host digest) url filename checksums w in
  In (EvWrite fd P 0 (byteLength P) (byteLength P)) (res_trace r) ->
  res_outcome r = Returned tt /\
  Ref.net w !! url = Some P /\
  checksum_rejected checksums (digest P) = false /\
  Ref.read_file (res_world r) filename = Some P.
Proof.
  intros r Hin. subst r.
  run_cases Hin.
  injection Hin as Hfd0 HP _ Hn. subst P0 fd0. rewrite Hn, Z.eqb_refl.
  injection Hget as Hnet Hw1.
  by destruct (ref_open_write_close digest _ _ _ _ _ _ _ _ _ Hopen Hfd Hwrite Hn Hclose)
    as [Hread _].
Qed.

(** A run on the reference host that returned wrote the whole payload. *)
Lemma ref_returned_wrote (digest : bytes -> string)
    (url filename : string) (checksums : option (list string)) (w : Ref.fs) :
  let r := download (H := Ref.host digest) url filename checksums w in
  res_outcome r = Returned tt ->
  exists fd P, In (EvWrite fd P 0 (byteLength P) (byteLength P)) (res_trace r).
Proof.
  intros r Hret. subst r.
  destruct (download_has_shape (H := Ref.host digest) url filename checksums w)
    as [w'|P0 w' arr|P0 w' e|P0 w' w2 fd0 ? ? Hmk
       |P0 w' w2 w3 w4 fd0 n0 rc Hget Hrej Hmk Hopen Hfd Hwrite Hclose];
    cbn [res_trace res_outcome res_world] in Hret |- *; try discriminate.
  destruct (n0 =? byteLength P0) eqn:En; [|discriminate].
  apply Z.eqb_eq in En. subst n0. exists fd0, P0.
  right. apply in_or_app. right. right. by left.
Qed.

(** C1: when [download] returns on the reference host, the destination
    names a regular file; its content is the fetched payload, so its
    length is the payload's length; and if an array of digests was given,
    empty or not, the digest of that content is one of its elements. *)
Theorem download_success_leaves_verified_file (digest : bytes -> string)
    (url filename : string) (checksums : option (list string)) (w : Ref.fs) :
  let r := download (H := Ref.host digest) url filename checksums w in
  res_outcome r = Returned tt ->
  exists P data,
    In (EvUrlGet url (Some P)) (res_trace r) /\
    Ref.read_file (res_world r) filename = Some data /\
    data = P /\
    List.length data = List.length P /\
    (forall expected, checksums = Some expected -> In (digest data) expected).
Proof.
  intros r Hret.
  destruct (ref_returned_wrote digest url filename checksums w Hret) as (fd & P & Hin).
  destruct (ref_full_write_succeeds digest url filename checksums w fd P Hin)
    as (_ & Hnet & Hrej & Hread).
  exists P, P. repeat split; try done.
  - subst r. rewrite download_run. cbn [std_urlGet Ref.host Ref.urlGet].
    rewrite Hnet. by left.
  - intros expected ->. simpl in Hrej. apply negb_false_iff in Hrej.
    by apply includes_In.
Qed.

Lemma download_success_leaves_verified_file_witness :
  let r := download (H := Demo.host) Demo.url Demo.destination
             (Some ["9f64a747e1b97f131fabb6b447296c9b6f0201e79fb3c5356e6c77e89b6a806a"])
             Demo.roomy in
  exists P data,
    In (EvUrlGet Demo.url (Some P)) (res_trace r) /\
    Ref.read_file (res_world r) Demo.destination = Some data /\
    data = P /\
    List.length data = List.length P /\
    (forall expected,
       Some ["9f64a747e1b97f131fabb6b447296c9b6f0201e79fb3c5356e6c77e89b6a806a"]
         = Some expected ->
       In (SHA256.digest data) expected).
Proof.
  apply (download_success_leaves_verified_file SHA256.digest
           Demo.url Demo.destination
           (Some ["9f64a747e1b97f131fabb6b447296c9b6f0201e79fb3c5356e6c77e89b6a806a"])
           Demo.roomy).
  vm_compute. reflexivity.
Defined.

(** C2, as first stated, fails: the payload's digest is the one listed,
    yet with room for a single byte of it the write comes back short,
    [download] leaves through [os.exit(1)], and the destination holds
    one byte. *)
Lemma matching_digest_can_still_fail :
  let r := download (H := Demo.host) Demo.url Demo.destination
             (Some [SHA256.digest Demo.payload]) Demo.cramped in
  Ref.net Demo.cramped !! Demo.url = Some Demo.payload /\
  res_outcome r = Exited 1 /\
  Ref.read_file (res_world r) Demo.destination = Some [x01] /\
  Ref.read_file (res_world r) Demo.destination <> Some Demo.payload.
Proof. vm_compute. repeat split; discriminate. Qed.

(** C2, amended: for a payload [P] fetched from [url] and the one-element
    array holding its digest, [download] never prints the checksum
    diagnostic; and when the write reports the whole length of [P]
    (so that [mkpath] returned and the destination was opened), it
    returns and the destination holds exactly [P]. *)
Theorem matching_digest_round_trip (digest : bytes -> string)
    (url filename : string) (w : Ref.fs) (P : bytes) :
  let r := download (H := Ref.host digest) url filename (Some [digest P]) w in
  Ref.net w !! url = Some P ->
  (forall args, ~ In (EvErrPrintf fmt_checksum args) (res_trace r)) /\
  (forall fd, In (EvWrite fd P 0 (byteLength P) (byteLength P)) (res_trace r) ->
     res_outcome r = Returned tt /\
     Ref.read_file (res_world r) filename = Some P).
Proof.
  intros r Hnet. split.
  - intros args Hargs.
    destruct (checksum_diagnostic_means_rejected (H := Ref.host digest)
                url filename (Some [digest P]) w args Hargs)
      as (P' & w' & arr & Hget & [= <-] & Hinc).
    cbn [std_urlGet Ref.host] in Hget. unfold Ref.urlGet in Hget.
    rewrite Hnet in Hget. injection Hget as <- _. simpl in Hinc.
    by rewrite String.eqb_refl in Hinc.
  - intros fd Hin.
    by destruct (ref_full_write_succeeds digest url filename (Some [digest P]) w fd P Hin)
      as (Hret & _ & _ & Hread).
Qed.

Lemma matching_digest_round_trip_witness :
  let r := download (H := Demo.host) Demo.url Demo.destination
             (Some [SHA256.digest Demo.payload]) Demo.roomy in
  (forall args, ~ In (EvErrPrintf fmt_checksum args) (res_trace r)) /\
  res_outcome r = Returned tt /\
  Ref.read_file (res_world r) Demo.destination = Some Demo.payload.
Proof.
  destruct (matching_digest_round_trip SHA256.digest
              Demo.url Demo.destination Demo.roomy Demo.payload) as [Hsilent Hfull].
  - reflexivity.
  - split; [exact Hsilent|]. apply (Hfull 3).
    vm_compute. do 4 right. left. reflexivity.
Defined.

(** C3, as first stated, fails for the empty array: an array is truthy
    and includes nothing, so [download] rejects every payload. *)
Lemma empty_checksums_reject :
  let r := download (H := Demo.host) Demo.url Demo.destination (Some []) Demo.roomy in
  res_outcome r = Exited 1 /\
  res_outcome r <> Returned tt /\
  res_trace r =
    [EvUrlGet Demo.url (Some Demo.payload);
     EvErrPrintf fmt_checksum
       [JS.Str Demo.destination; JS.Str "";
        JS.Str "9f64a747e1b97f131fabb6b447296c9b6f0201e79fb3c5356e6c77e89b6a806a"];
     EvExit 1] /\
  Ref.read_file (res_world r) Demo.destination = None.
Proof. vm_compute. repeat split; discriminate. Qed.

(** C3, amended: with no [checksums] ([null], the default, or
    [undefined]), whatever the digest function answers, [download] never
    prints the checksum diagnostic; and when the write reports the whole
    length of the fetched payload, it returns and the destination holds
    the payload byte for byte. *)
Theorem absent_checksums_skip_verification (digest : bytes -> string)
    (url filename : string) (w : Ref.fs) (P : bytes) :
  let r := download (H := Ref.host digest) url filename None w in
  Ref.net w !! url = Some P ->
  (forall args, ~ In (EvErrPrintf fmt_checksum args) (res_trace r)) /\
  (forall fd, In (EvWrite fd P 0 (byteLength P) (byteLength P)) (res_trace r) ->
     res_outcome r = Returned tt /\
     Ref.read_file (res_world r) filename = Some P).
Proof.
  intros r Hnet. split.
  - intros args Hargs.
    by destruct (checksum_diagnostic_means_rejected (H := Ref.host digest)
                   url filename None w args Hargs)
      as (P' & w' & arr & _ & ? & _).
  - intros fd Hin.
    by destruct (ref_full_write_succeeds digest url filename None w fd P Hin)
      as (Hret & _ & _ & Hread).
Qed.

Lemma absent_checksums_skip_verification_witness :
  let r := download (H := Demo.host) Demo.url Demo.destination None Demo.roomy in
  (forall args, ~ In (EvErrPrintf fmt_checksum args) (res_trace r)) /\
  res_outcome r = Returned tt /\
  Ref.read_file (res_world r) Demo.destination = Some Demo.payload.
Proof.
  destruct (absent_checksums_skip_verification SHA256.digest
              Demo.url Demo.destination Demo.roomy Demo.payload) as [Hsilent Hfull].
  - reflexivity.
  - split; [exact Hsilent|]. apply (Hfull 3).
    vm_compute. do 4 right. left. reflexivity.
Defined.

(** ** Relative and absolute destinations *)

Lemma string_append_assoc (a b c : string) : (a +:+ b) +:+ c = a +:+ (b +:+ c).
Proof.
  induction a as [|x a IH]; [done|].
  change (String x ((a +:+ b) +:+ c) = String x (a +:+ (b +:+ c))).
  by rewrite IH.
Qed.

Lemma join_snoc (pre : list string) (p : string) :
  pre <> [] -> JS.join "/" (pre ++ [p]) = JS.join "/" pre +:+ ("/" +:+ p).
Proof.
  induction pre as [|x [|y pre] IH]; intros Hne; [done|done|].
  change (JS.join "/" ((x :: y :: pre) ++ [p]))
    with (x +:+ ("/" +:+ JS.join "/" ((y :: pre) ++ [p]))).
  rewrite IH by done.
  change (JS.join "/" (x :: y :: pre)) with (x +:+ ("/" +:+ JS.join "/" (y :: pre))).
  by rewrite !string_append_assoc.
Qed.

Lemma truthy_append (a b : string) : JS.truthy a = true -> JS.truthy (a +:+ b) = true.
Proof. by destruct a. Qed.

(** Once [subpath] holds the segments [pre] joined by slashes, the loop
    goes through the joins of [pre] with one more segment each time. *)
Lemma subpaths_of_join (parts : list string) : forall pre : list string,
  pre <> [] ->
  JS.truthy (JS.join "/" pre) = true ->
  subpaths parts (JS.join "/" pre) =
    map (fun k => JS.join "/" (pre ++ take k parts)) (seq 1 (List.length parts)).
Proof.
  induction parts as [|p rest IH]; intros pre Hne Htruthy; [done|].
  cbn [subpaths List.length seq map]. unfold extend at 1 2. rewrite Htruthy.
  rewrite <- join_snoc by done. f_equal.
  rewrite IH.
  - rewrite <- (seq_shift (List.length rest) 1), map_map. apply map_ext. intros k.
    by rewrite <- app_assoc.
  - by destruct pre.
  - rewrite join_snoc by done. by apply truthy_append.
Qed.

(** For a path whose first segment is not empty, a relative path that
    is, [mkpath] asks for the increasing prefixes of the directory
    segments, each joined by slashes, in order. *)
Lemma relative_targets_are_increasing_prefixes (filePath : string) :
  let parts := JS.split "/" (JS.slice0 filePath (JS.lastIndexOf "/" filePath)) in
  0 < JS.lastIndexOf "/" filePath ->
  (forall p rest, parts = p :: rest -> p <> "") ->
  mkpath_targets filePath =
    map (fun k => JS.join "/" (take k parts)) (seq 1 (List.length parts)).
Proof.
  intros parts Hidx Hfirst. unfold mkpath_targets. fold parts.
  destruct (Z.leb_spec (JS.lastIndexOf "/" filePath) 0) as [Hle|_]; [lia|].
  destruct parts as [|p rest] eqn:Hparts; [done|].
  assert (Hp : p <> "") by by eapply Hfirst.
  cbn [subpaths List.length seq map]. unfold extend at 1 2.
  cbn [JS.truthy]. f_equal.
  change ("" +:+ ("" +:+ p)) with (JS.join "/" [p]).
  rewrite subpaths_of_join; [|done|by destruct p].
  by rewrite <- (seq_shift (List.length rest) 1), map_map.
Qed.

(** No segment of a split begins with the separator. *)
Lemma split_not_absolute (s : string) :
  Forall (fun part => Ref.absolute part = false) (JS.split "/" s).
Proof.
  induction s as [|a s IH]; [by repeat constructor|].
  cbn [JS.split]. destruct (Ascii.eqb a "/") eqn:Ea.
  - by constructor.
  - destruct (JS.split "/" s) as [|h t]; [by repeat constructor|].
    apply Forall_cons in IH as [_ Ht]. by constructor.
Qed.

Lemma subpaths_not_absolute (parts : list string) : forall subpath,
  Ref.absolute subpath = false ->
  Forall (fun part => Ref.absolute part = false) parts ->
  Forall (fun t => Ref.absolute t = false) (subpaths parts subpath).
Proof.
  induction parts as [|p rest IH]; intros subpath Hsub Hparts; [constructor|].
  apply Forall_cons in Hparts as [Hp Hrest].
  assert (Hext : Ref.absolute (extend subpath p) = false) by by destruct subpath.
  cbn [subpaths]. constructor; [done|]. by apply IH.
Qed.

(** Whatever the path, absolute or not, no directory [mkpath] asks for
    begins with a slash. *)
Lemma mkpath_targets_not_absolute (filePath : string) :
  Forall (fun t => Ref.absolute t = false) (mkpath_targets filePath).
Proof.
  unfold mkpath_targets. destruct (_ <=? 0); [constructor|].
  apply subpaths_not_absolute; [done | apply split_not_absolute].
Qed.

(** C5, at [/a/b/file.txt]: the directory portion [/a/b] splits into
    an empty first segment, [a] and [b]; the empty [subpath] is falsy, so
    no slash is put back in front of [a], and [mkpath] asks for [""], [a]
    and [a/b], never for [/a] or [/a/b]; indeed, on any host and for any
    path, no call of [os.mkdir] is for a path that begins with a slash.
    On the reference host, started in [/home]: where [os.mkdir] returns
    its errno, [/home/a/b] appears and [/a] does not; where it throws,
    the first call throws [ENOENT] and nothing is created. *)
Theorem mkpath_absolute_path_goes_relative :
  mkpath_targets "/a/b/file.txt" = [""; "a"; "a/b"] /\
  (forall (H : Host) (mode : Z) (w : world),
     mkdir_paths (res_trace (mkpath "/a/b/file.txt" mode w))
       `prefix_of` [""; "a"; "a/b"]) /\
  (forall (H : Host) (filePath : string) (mode : Z) (w : world) (p : string),
     In p (mkdir_paths (res_trace (mkpath filePath mode w))) ->
     Ref.absolute p = false) /\
  (let r := mkpath (H := Demo.host) "/a/b/file.txt" default_dir_mode Demo.quiet in
   res_outcome r = Returned tt /\
   Ref.is_directory (res_world r) "/a" = false /\
   Ref.is_directory (res_world r) "/a/b" = false /\
   Ref.is_directory (res_world r) "/home/a/b" = true) /\
  (let r := mkpath (H := Demo.host) "/a/b/file.txt" default_dir_mode Demo.roomy in
   res_outcome r = Thrown (JS.Error "ENOENT") /\
   Ref.nodes (res_world r) = Ref.nodes Demo.roomy /\
   Ref.is_directory (res_world r) "/a" = false).
Proof.
  split; [reflexivity|]. split; [|split].
  - intros H mode w.
    change [""; "a"; "a/b"] with (mkpath_targets "/a/b/file.txt").
    apply mkpath_paths.
  - intros H filePath mode w p Hin.
    destruct (mkpath_paths filePath mode w) as [[rest Hpre] _].
    pose proof (mkpath_targets_not_absolute filePath) as Hall.
    rewrite Hpre, Forall_app, Forall_forall in Hall.
    apply Hall. by apply list_elem_of_In.
  - split; vm_compute; repeat split; reflexivity.
Qed.

(** For comparison, the relative destination of the scenario: the
    targets are the increasing prefixes, and both directories exist
    afterwards. *)
Lemma mkpath_relative_path_example :
  mkpath_targets "out/dir/a.bin" = ["out"; "out/dir"] /\
  (let r := mkpath (H := Demo.host) "out/dir/a.bin" default_dir_mode Demo.roomy in
   res_outcome r = Returned tt /\
   Ref.is_directory (res_world r) "out" = true /\
   Ref.is_directory (res_world r) "out/dir" = true).
Proof. split; [reflexivity|]. vm_compute. repeat split; reflexivity. Qed.

(** ** [mkpath] twice on the reference host *)

Lemma split_nonempty (sep : ascii) (s : string) : JS.split sep s <> [].
Proof.
  destruct s as [|a s]; simpl; [done|].
  destruct (Ascii.eqb a sep); [done|]. by destruct (JS.split sep s).
Qed.

Lemma split_append (sep : ascii) (a b : string) :
  JS.split sep (a +:+ String sep b) = JS.split sep a ++ JS.split sep b.
Proof.
  induction a as [|c a IH]; simpl.
  - by rewrite Ascii.eqb_refl.
  - destruct (Ascii.eqb c sep); [by rewrite IH|].
    rewrite IH. pose proof (split_nonempty sep a) as Hne.
    by destruct (JS.split sep a).
Qed.

Lemma segments_extend (t p : string) :
  t <> "" -> Ref.segments (extend t p) = Ref.segments t ++ Ref.segments p.
Proof.
  intros Ht. unfold extend, Ref.segments.
  destruct t as [|c t]; [done|]. cbn [JS.truthy].
  change ("/" +:+ p) with (String "/" p).
  by rewrite split_append, filter_app.
Qed.

Lemma absolute_extend (t p : string) :
  t <> "" -> Ref.absolute (extend t p) = Ref.absolute t.
Proof.
  intros Ht. by destruct t.
Qed.

Lemma extend_not_empty (t p : string) : t <> "" -> extend t p <> "".
Proof. by destruct t. Qed.

Lemma walk_app ns a : forall cur b,
  Ref.walk ns cur (a ++ b) =
    match Ref.walk ns cur a with
    | inl e => inl e
    | inr k => Ref.walk ns k b
    end.
Proof.
  induction a as [|c cs IH]; intros cur b; simpl; [done|].
  destruct (ns !! cur) as [[p|p d]|]; [|done|done].
  destruct (String.eqb c "."); [apply IH|].
  destruct (String.eqb c ".."); apply IH.
Qed.

(** Adding entries does not move any path that could be followed. *)
Lemma walk_mono ns ns' comps : forall cur k,
  ns ⊆ ns' ->
  Ref.walk ns cur comps = inr k ->
  Ref.walk ns' cur comps = inr k.
Proof.
  induction comps as [|c cs IH]; intros cur k Hsub Hwalk; [done|].
  simpl in *.
  destruct (ns !! cur) as [[p|p d]|] eqn:Hcur; [|done|done].
  rewrite (lookup_weaken _ _ _ _ Hcur Hsub).
  destruct (String.eqb c "."); [by apply IH|].
  destruct (String.eqb c ".."); by apply IH.
Qed.

Lemma extends_refl w : extends w w.
Proof. by repeat split. Qed.

Lemma extends_trans w1 w2 w3 : extends w1 w2 -> extends w2 w3 -> extends w1 w3.
Proof.
  intros (Hc1 & Ht1 & Hn1) (Hc2 & Ht2 & Hn2). repeat split; [congruence..|].
  by etrans.
Qed.

(** [os.mkdir] on the reference host, by cases. *)
Lemma ref_mkdir_cases path mode w :
  (exists key,
     Ref.mkdir_errno w path = inr key /\
     Ref.locate w path = inr key /\
     Ref.nodes w !! key = None /\
     Ref.mkdir path mode w =
       (MkdirReturns 0,
        Ref.set_nodes w (<[key := Ref.Dir (Ref.masked mode (Ref.umask w))]> (Ref.nodes w))
                      (Ref.free w - 1)%nat)) \/
  (exists e,
     Ref.mkdir_errno w path = inl e /\
     Ref.mkdir path mode w =
       (if Ref.mkdir_throws w then MkdirThrows (JS.Error (Ref.errno_name e))
        else MkdirReturns (- Ref.errno_code e), w)).
Proof.
  unfold Ref.mkdir. destruct (Ref.mkdir_errno w path) as [e|key] eqn:E.
  - right. by exists e.
  - left. exists key. split; [done|].
    unfold Ref.mkdir_errno in E.
    destruct (Ref.locate w path) as [e|key'] eqn:Hloc; [done|].
    destruct (Ref.nodes w !! key') eqn:Hkey; [done|].
    destruct (Ref.may_create w key'); [done|].
    injection E as <-. done.
Qed.

Lemma ref_mkdir_extends path mode w :
  extends w (Ref.mkdir path mode w).2.
Proof.
  destruct (ref_mkdir_cases path mode w) as [(key & _ & _ & Hnone & ->)|(e & _ & ->)].
  - repeat split; try done. simpl. by apply insert_subseteq.
  - apply extends_refl.
Qed.

Lemma occupied_iff w path :
  occupied w path <->
  exists key v, Ref.locate w path = inr key /\ Ref.nodes w !! key = Some v.
Proof.
  unfold occupied, Ref.mkdir_errno. split.
  - destruct (Ref.locate w path) as [e|key] eqn:Hloc.
    + intros [= ->]. unfold Ref.locate in Hloc.
      destruct (String.eqb path ""); [done|].
      exfalso. revert Hloc. generalize (if Ref.absolute path then [] else Ref.cwd w).
      induction (Ref.segments path) as [|c cs IH]; intros cur; simpl; [done|].
      destruct (Ref.nodes w !! cur) as [[p|p d]|]; [|done|done].
      destruct (String.eqb c "."); [apply IH|].
      destruct (String.eqb c ".."); apply IH.
    + destruct (Ref.nodes w !! key) as [v|] eqn:Hkey; [by eauto|].
      unfold Ref.may_create.
      destruct (Ref.nodes w !! removelast key) as [[p|p d]|]; [|done|done].
      destruct (negb _); [done|]. by destruct (Nat.eqb _ _).
  - intros (key & v & -> & ->). done.
Qed.

Lemma occupied_mono w w' path : extends w w' -> occupied w path -> occupied w' path.
Proof.
  intros (Hcwd & _ & Hsub). rewrite !occupied_iff.
  intros (key & v & Hloc & Hkey). exists key, v. split.
  - unfold Ref.locate in *. destruct (String.eqb path ""); [done|].
    rewrite Hcwd. by eapply walk_mono.
  - by eapply lookup_weaken.
Qed.

Lemma created_is_occupied path mode w key :
  Ref.mkdir_errno w path = inr key ->
  occupied (Ref.mkdir path mode w).2 path.
Proof.
  intros E.
  destruct (ref_mkdir_cases path mode w) as [(key' & E' & Hloc & Hnone & ->)|(e & E' & _)];
    [|congruence].
  apply occupied_iff. exists key', (Ref.Dir (Ref.masked mode (Ref.umask w))).
  simpl. split; [|by rewrite lookup_insert_eq].
  unfold Ref.locate in *. simpl. destruct (String.eqb path ""); [done|].
  eapply walk_mono; [|done]. by apply insert_subseteq.
Qed.

(** A directory that cannot be made blocks everything below it. *)
Lemma blocked_below w t p e :
  t <> "" ->
  Ref.mkdir_errno w t = inl e -> e <> Ref.EEXIST ->
  exists e', Ref.mkdir_errno w (extend t p) = inl e' /\ e' <> Ref.EEXIST.
Proof.
  intros Ht E Hne. unfold Ref.mkdir_errno, Ref.locate in *.
  pose proof (extend_not_empty t p Ht) as Hext.
  apply String.eqb_neq in Ht, Hext. rewrite Ht in E. rewrite Hext.
  apply String.eqb_neq in Ht.
  rewrite absolute_extend, segments_extend, walk_app by done.
  destruct (Ref.walk (Ref.nodes w) _ (Ref.segments t)) as [e0|key] eqn:Hwalk.
  { injection E as ->. by exists e. }
  destruct (Ref.nodes w !! key) as [v|] eqn:Hkey.
  { injection E as <-. done. }
  destruct (Ref.segments p) as [|c cs].
  - simpl. rewrite Hkey. by exists e.
  - simpl. rewrite Hkey. by exists Ref.ENOENT.
Qed.

Lemma eexist_test (e : Ref.errno) :
  JS.regex_test "EEXIST" (Ref.errno_name e) = true <-> e = Ref.EEXIST.
Proof. destruct e; vm_compute; split; congruence. Qed.

Section RefMkpath.
Variable digest : bytes -> string.

(** One turn of the loop on the reference host. *)
Lemma ref_mkdir_step t mode w :
  let r := mkdir_step (H := Ref.host digest) t mode w in
  (exists key, Ref.mkdir_errno w t = inr key /\
               res_outcome r = Returned tt /\ res_world r = (Ref.mkdir t mode w).2) \/
  (exists e, Ref.mkdir_errno w t = inl e /\ res_world r = w /\
             ((Ref.mkdir_throws w = true /\ e <> Ref.EEXIST /\
               res_outcome r = Thrown (JS.Error (Ref.errno_name e))) \/
              ((Ref.mkdir_throws w = true -> e = Ref.EEXIST) /\
               res_outcome r = Returned tt))).
Proof.
  cbv zeta. unfold mkdir_step. cbn [os_mkdir Ref.host].
  destruct (ref_mkdir_cases t mode w) as [(key & E & _ & _ & ->)|(e & E & ->)].
  - left. by exists key.
  - right. exists e. split; [done|].
    destruct (Ref.mkdir_throws w) eqn:Hthrows; cbn [JS.message].
    + destruct (JS.regex_test "EEXIST" (Ref.errno_name e)) eqn:Ht.
      * apply eexist_test in Ht. split; [done|]. by right.
      * split; [done|]. left. repeat split; try done.
        intros ->. by vm_compute in Ht.
    + split; [done|]. by right.
Qed.

Lemma ref_loop_extends parts : forall t mode w,
  extends w (res_world (mkpath_loop (H := Ref.host digest) parts t mode w)).
Proof.
  induction parts as [|p rest IH]; intros t mode w.
  - apply extends_refl.
  - rewrite mkpath_loop_cons. cbv zeta.
    assert (Hstep : extends w (res_world (mkdir_step (H := Ref.host digest)
                                            (extend t p) mode w))).
    { destruct (ref_mkdir_step (extend t p) mode w)
        as [(key & _ & _ & ->)|(e & _ & -> & _)].
      - apply ref_mkdir_extends.
      - apply extends_refl. }
    destruct (res_outcome (mkdir_step (H := Ref.host digest) (extend t p) mode w));
      cbn [res_world prepend]; [|done|done].
    eapply extends_trans; [exact Hstep | apply IH].
Qed.

(** Where [os.mkdir] does not throw: once a directory could not be
    made, the rest of the loop changes nothing. *)
Lemma ref_loop_blocked parts : forall t mode w e,
  Ref.mkdir_throws w = false ->
  t <> "" ->
  Ref.mkdir_errno w t = inl e -> e <> Ref.EEXIST ->
  res_world (mkpath_loop (H := Ref.host digest) parts t mode w) = w /\
  Forall (fun t' => exists e', Ref.mkdir_errno w t' = inl e') (subpaths parts t).
Proof.
  induction parts as [|p rest IH]; intros t mode w e Hquiet Ht E Hne.
  - by split.
  - destruct (blocked_below w t p e Ht E Hne) as (e' & E' & Hne').
    rewrite mkpath_loop_cons. cbv zeta.
    destruct (ref_mkdir_step (extend t p) mode w)
      as [(key & Ek & _)|(e2 & E2 & Hw & [(Hthrows & _)|(_ & Hret)])]; [congruence..|].
    rewrite Hret. cbn [res_world prepend]. rewrite Hw.
    destruct (IH (extend t p) mode w e' Hquiet (extend_not_empty t p Ht) E' Hne')
      as [Hworld Hall].
    split; [done|]. simpl. constructor; [by exists e'|done].
Qed.

Lemma ref_loop_settles parts : forall t mode w,
  let r := mkpath_loop (H := Ref.host digest) parts t mode w in
  res_outcome r = Returned tt ->
  Forall (settled (res_world r)) (subpaths parts t).
Proof.
  induction parts as [|p rest IH]; intros t mode w; cbv zeta; [by constructor|].
  rewrite mkpath_loop_cons. cbv zeta. simpl subpaths.
  set (t' := extend t p).
  pose proof (ref_loop_extends rest t' mode) as Hext.
  destruct (ref_mkdir_step t' mode w)
    as [(key & E & Hret & Hw)|(e & E & Hw & [(_ & _ & Hthrown)|(Hkind & Hret)])].
  - rewrite Hret, Hw. cbn [res_outcome res_world prepend]. intros Hrest.
    constructor; [|by apply IH].
    exists Ref.EEXIST. split; [|done].
    eapply occupied_mono; [apply Hext|]. by eapply created_is_occupied.
  - rewrite Hthrown. discriminate.
  - rewrite Hret, Hw. cbn [res_outcome res_world prepend]. intros Hrest.
    constructor; [|by apply IH].
    destruct (Hext w) as (_ & Hsame & _).
    destruct (decide (e = Ref.EEXIST)) as [->|Hne].
    { exists Ref.EEXIST. split; [|done]. eapply occupied_mono; [apply Hext|done]. }
    assert (Hquiet : Ref.mkdir_throws w = false).
    { destruct (Ref.mkdir_throws w); [|done]. by destruct Hne; apply Hkind. }
    rewrite Hquiet in Hsame.
    exists e. split; [|by rewrite Hsame].
    destruct (decide (t' = "")) as [Hempty|Hnonempty].
    + rewrite Hempty in E |- *. by rewrite <- E.
    + by destruct (ref_loop_blocked rest t' mode w e Hquiet Hnonempty E Hne) as [-> _].
Qed.

(** [mkpath] over directories that are all settled returns and leaves
    the world as it is. *)
Lemma ref_loop_replay parts : forall t mode w,
  Forall (settled w) (subpaths parts t) ->
  res_outcome (mkpath_loop (H := Ref.host digest) parts t mode w) = Returned tt /\
  res_world (mkpath_loop (H := Ref.host digest) parts t mode w) = w.
Proof.
  induction parts as [|p rest IH]; intros t mode w Hall; [done|].
  simpl in Hall. apply Forall_cons in Hall as [(e & E & Hkind) Hall].
  rewrite mkpath_loop_cons. cbv zeta.
  destruct (ref_mkdir_step (extend t p) mode w)
    as [(key & Ek & _)|(e2 & E2 & Hw & [(Hthrows & Hne & _)|(_ & Hret)])].
  - congruence.
  - destruct Hne. rewrite E in E2. injection E2 as <-. by apply Hkind.
  - rewrite Hret. cbn [res_outcome res_world prepend]. rewrite Hw. by apply IH.
Qed.

End RefMkpath.

(** C9: on the reference host, when [mkpath] has returned, calling it
    again with the same path returns too, without an error, and leaves
    the world, directories included, exactly as the first call left
    it; so two calls in a row end as one call does, in the same world.
    This holds whether [os.mkdir] throws or returns its errno. *)
Theorem mkpath_twice_is_idempotent (digest : bytes -> string)
    (filePath : string) (mode : Z) (w : Ref.fs) :
  let r1 := mkpath (H := Ref.host digest) filePath mode w in
  let r2 := mkpath (H := Ref.host digest) filePath mode (res_world r1) in
  let twice := (mkpath (H := Ref.host digest) filePath mode ;;;
                mkpath (H := Ref.host digest) filePath mode) w in
  (res_outcome r1 = Returned tt ->
   res_outcome r2 = Returned tt /\
   res_world r2 = res_world r1 /\
   Ref.nodes (res_world r2) = Ref.nodes (res_world r1)) /\
  res_outcome twice = res_outcome r1 /\
  res_world twice = res_world r1.
Proof.
  cbv zeta.
  assert (Hsecond :
    res_outcome (mkpath (H := Ref.host digest) filePath mode w) = Returned tt ->
    res_outcome (mkpath (H := Ref.host digest) filePath mode
                   (res_world (mkpath (H := Ref.host digest) filePath mode w)))
      = Returned tt /\
    res_world (mkpath (H := Ref.host digest) filePath mode
                 (res_world (mkpath (H := Ref.host digest) filePath mode w)))
      = res_world (mkpath (H := Ref.host digest) filePath mode w)).
  { unfold mkpath. destruct (_ <=? 0); [done|]. intros Hret.
    exact (ref_loop_replay digest _ "" mode _
             (ref_loop_settles digest _ "" mode w Hret)). }
  split.
  - intros Hret. destruct (Hsecond Hret) as [Hret2 Hw2]. by rewrite Hret2, Hw2.
  - unfold bind.
    destruct (res_outcome (mkpath (H := Ref.host digest) filePath mode w))
      as [[]|e|c] eqn:Hret; [|done|done].
    destruct (Hsecond eq_refl) as [Hret2 Hw2]. by cbn [prepend res_outcome res_world].
Qed.

Lemma mkpath_twice_is_idempotent_witness :
  let r1 := mkpath (H := Demo.host) Demo.destination default_dir_mode Demo.roomy in
  let r2 := mkpath (H := Demo.host) Demo.destination default_dir_mode (res_world r1) in
  res_outcome r2 = Returned tt /\
  res_world r2 = res_world r1 /\
  Ref.nodes (res_world r2) = Ref.nodes (res_world r1).
Proof.
  apply (mkpath_twice_is_idempotent SHA256.digest
           Demo.destination default_dir_mode Demo.roomy).
  reflexivity.
Defined.

(** Where [os.mkdir] returns its errno instead of throwing, [mkpath]
    always returns. *)
Lemma quiet_mkpath_returns (digest : bytes -> string)
    (filePath : string) (mode : Z) (w : Ref.fs) :
  Ref.mkdir_throws w = false ->
  res_outcome (mkpath (H := Ref.host digest) filePath mode w) = Returned tt.
Proof.
  intros Hquiet. unfold mkpath. destruct (_ <=? 0); [done|].
  generalize (JS.split "/" (JS.slice0 filePath (JS.lastIndexOf "/" filePath))).
  generalize "". intros t parts. revert t w Hquiet.
  induction parts as [|p rest IH]; intros t w Hquiet; [done|].
  rewrite mkpath_loop_cons. cbv zeta.
  pose proof (ref_mkdir_extends (extend t p) mode w) as (_ & Hsame & _).
  destruct (ref_mkdir_step digest (extend t p) mode w)
    as [(key & _ & Hret & Hw)|(e & _ & Hw & [(Hthrows & _)|(_ & Hret)])];
    [|congruence|].
  - rewrite Hret, Hw. cbn [res_outcome prepend]. apply IH. congruence.
  - rewrite Hret, Hw. cbn [res_outcome prepend]. by apply IH.
Qed.

(** ** Failures of [os.mkdir] that do not reach the caller *)

(** C8, at [out/dir/a.bin] in a home directory that is not writable,
    and again with a regular file at [out/dir].  Where [os.mkdir]
    reports a failure by the number it returns, negated errno as QuickJS
    documents it and as [download] itself expects of [os.open], nothing
    is thrown: [os.mkdir("out")] is refused with [EACCES], the number
    is dropped, the loop goes on, and [mkpath] returns having made no
    directory; on such a host [mkpath] returns whatever happens.  And
    where [os.mkdir] throws, a regular file at the last directory
    segment is reported as [EEXIST], as anything already there is, and
    the [catch] clause swallows it: [mkpath] returns although [out/dir]
    is no directory. *)
Theorem mkdir_failures_not_propagated :
  (let r := mkpath (H := Demo.host) Demo.destination default_dir_mode Demo.locked in
   Ref.mkdir_errno Demo.locked "out" = inl Ref.EACCES /\
   res_trace r =
     [EvMkdir "out" 493 (MkdirReturns (- Ref.errno_code Ref.EACCES));
      EvMkdir "out/dir" 493 (MkdirReturns (- Ref.errno_code Ref.ENOENT))] /\
   res_outcome r = Returned tt /\
   Ref.is_directory (res_world r) "out" = false /\
   Ref.is_directory (res_world r) "out/dir" = false) /\
  (forall (digest : bytes -> string) (filePath : string) (mode : Z) (w : Ref.fs),
     Ref.mkdir_throws w = false ->
     res_outcome (mkpath (H := Ref.host digest) filePath mode w) = Returned tt) /\
  (let r := mkpath (H := Demo.host) Demo.destination default_dir_mode Demo.blocked in
   res_trace r =
     [EvMkdir "out" 493 (MkdirThrows (JS.Error "EEXIST"));
      EvMkdir "out/dir" 493 (MkdirThrows (JS.Error "EEXIST"))] /\
   res_outcome r = Returned tt /\
   Ref.is_directory (res_world r) "out/dir" = false /\
   Ref.read_file (res_world r) "out/dir" = Some [x2a]).
Proof.
  split; [|split].
  - vm_compute. repeat split; reflexivity.
  - apply quiet_mkpath_returns.
  - vm_compute. repeat split; reflexivity.
Qed.

(** * Further properties, read off the code *)

(** ** Where the last slash is *)

Lemma lastIndexOf_from_spec (c : ascii) (s : string) : forall i found,
  found < i ->
  (JS.lastIndexOf_from c s i found = found /\
   forall k, String.get k s <> Some c) \/
  (exists k : nat,
     JS.lastIndexOf_from c s i found = i + Z.of_nat k /\
     String.get k s = Some c /\
     forall k', (k < k')%nat -> String.get k' s <> Some c).
Proof.
  induction s as [|a s IH]; intros i found Hlt.
  - left. split; [done|]. by intros [|k].
  - cbn [JS.lastIndexOf_from]. destruct (Ascii.eqb_spec a c) as [->|Hne].
    + destruct (IH (i + 1) i ltac:(lia)) as [[-> Hnone]|(k & -> & Hk & Hafter)].
      * right. exists 0%nat. split; [lia|]. split; [done|].
        intros [|k'] Hk'; [lia|]. apply Hnone.
      * right. exists (S k). split; [lia|]. split; [done|].
        intros [|k'] Hk'; [lia|]. apply Hafter. lia.
    + destruct (IH (i + 1) found ltac:(lia)) as [[-> Hnone]|(k & -> & Hk & Hafter)].
      * left. split; [done|]. intros [|k]; simpl; [congruence | apply Hnone].
      * right. exists (S k). split; [lia|]. split; [done|].
        intros [|k'] Hk'; [lia|]. apply Hafter. lia.
Qed.

(** [lastIndexOf] answers [-1] when the character does not occur, and
    otherwise the one index that holds it with none after. *)
Lemma lastIndexOf_spec (c : ascii) (s : string) :
  (JS.lastIndexOf c s = -1 /\ forall k, String.get k s <> Some c) \/
  (exists k : nat,
     JS.lastIndexOf c s = Z.of_nat k /\
     String.get k s = Some c /\
     forall k', (k < k')%nat -> String.get k' s <> Some c).
Proof.
  unfold JS.lastIndexOf.
  destruct (lastIndexOf_from_spec c s 0 (-1) ltac:(lia)) as [?|(k & Hk & ?)];
    [by left | right].
  exists k. by rewrite Hk.
Qed.

(** X1: a path with no slash after its first character, a bare file
    name or a name directly under the root, has no directory part:
    [mkpath] calls nothing, changes nothing and returns. *)
Theorem mkpath_without_directory_part `{H : Host}
    (filePath : string) (mode : Z) (w : world) :
  (forall i, (0 < i)%nat -> String.get i filePath <> Some "/"%char) ->
  mkpath filePath mode w = Result (Returned tt) w [].
Proof.
  intros Hnone. unfold mkpath.
  destruct (lastIndexOf_spec "/" filePath) as [[-> _]|(k & -> & Hk & _)]; [done|].
  destruct k as [|k]; [done|].
  exfalso. apply (Hnone (S k)); [lia | done].
Qed.

Lemma mkpath_without_directory_part_witness :
  mkpath (H := Demo.host) "/a.bin" default_dir_mode Demo.roomy =
    Result (H := Demo.host) (Returned tt) Demo.roomy [].
Proof.
  apply (mkpath_without_directory_part (H := Demo.host)
           "/a.bin" default_dir_mode Demo.roomy).
  intros i Hi.
  do 7 (destruct i as [|i]; [first [lia | discriminate]|]).
  discriminate.
Defined.

(** ** The calls of [mkpath] *)

Lemma mkpath_loop_calls `{H : Host} parts : forall subpath mode w,
  let r := mkpath_loop parts subpath mode w in
  Forall (fun ev => exists p a, ev = EvMkdir p mode a) (res_trace r) /\
  (forall e, res_outcome r = Thrown e ->
     exists tr p, res_trace r = tr ++ [EvMkdir p mode (MkdirThrows e)]).
Proof.
  induction parts as [|part rest IH]; intros subpath mode w; cbv zeta.
  - split; [constructor | done].
  - rewrite mkpath_loop_cons. cbv zeta. unfold mkdir_step.
    destruct (os_mkdir (extend subpath part) mode w) as [[rc|e0] w'].
    + cbn [res_outcome res_world res_trace prepend].
      destruct (IH (extend subpath part) mode w') as [IH1 IH2]. split.
      * constructor; [by eauto | exact IH1].
      * intros e He. destruct (IH2 e He) as (tr & p & ->).
        by exists (EvMkdir (extend subpath part) mode (MkdirReturns rc) :: tr), p.
    + destruct (JS.regex_test "EEXIST" (JS.message e0)).
      * cbn [res_outcome res_world res_trace prepend].
        destruct (IH (extend subpath part) mode w') as [IH1 IH2]. split.
        -- constructor; [by eauto | exact IH1].
        -- intros e He. destruct (IH2 e He) as (tr & p & ->).
           by exists (EvMkdir (extend subpath part) mode (MkdirThrows e0) :: tr), p.
      * cbn [res_outcome res_world res_trace]. split.
        -- constructor; [by eauto | constructor].
        -- intros e [= <-]. by exists [], (extend subpath part).
Qed.

Lemma mkpath_calls `{H : Host} filePath mode w :
  let r := mkpath filePath mode w in
  Forall (fun ev => exists p a, ev = EvMkdir p mode a) (res_trace r) /\
  (forall e, res_outcome r = Thrown e ->
     exists tr p, res_trace r = tr ++ [EvMkdir p mode (MkdirThrows e)]).
Proof.
  unfold mkpath. destruct (_ <=? 0).
  - split; [constructor | done].
  - apply mkpath_loop_calls.
Qed.

Lemma mkdir_paths_length (tr : list event) :
  Forall (fun ev => is_mkdir ev = true) tr ->
  List.length (mkdir_paths tr) = List.length tr.
Proof.
  induction 1 as [|ev tr Hev _ IH]; [done|].
  destruct ev; try discriminate.
  change (S (List.length (mkdir_paths tr)) = S (List.length tr)). by rewrite IH.
Qed.

(** X2: whatever the host does, [mkpath] calls nothing but [os.mkdir],
    always with the mode it was given, and never leaves through
    [os.exit].  The paths it asks for are, in order, the first of the
    successive values of [subpath]: all of them, one call each, when it
    returns; and when it throws, the call that threw is the last one. *)
Theorem mkpath_calls_only_mkdir `{H : Host}
    (filePath : string) (mode : Z) (w : world) :
  let r := mkpath filePath mode w in
  Forall (fun ev => exists p a, ev = EvMkdir p mode a) (res_trace r) /\
  (forall c, res_outcome r <> Exited c) /\
  mkdir_paths (res_trace r) `prefix_of` mkpath_targets filePath /\
  (res_outcome r = Returned tt ->
     mkdir_paths (res_trace r) = mkpath_targets filePath /\
     List.length (res_trace r) = List.length (mkpath_targets filePath)) /\
  (forall e, res_outcome r = Thrown e ->
     exists tr p, res_trace r = tr ++ [EvMkdir p mode (MkdirThrows e)]).
Proof.
  cbv zeta.
  destruct (mkpath_calls filePath mode w) as [Hall Hlast].
  destruct (mkpath_paths filePath mode w) as [Hpre Hret].
  split; [exact Hall|]. split; [intros c; apply mkpath_not_exited|].
  split; [exact Hpre|]. split; [|exact Hlast].
  intros Hr. rewrite <- (Hret tt Hr). split; [done|].
  symmetry. apply mkdir_paths_length, mkpath_only_mkdir.
Qed.

(** ** A relative path, cut and put together again *)

Lemma join_split (s : string) : JS.join "/" (JS.split "/" s) = s.
Proof.
  induction s as [|a s IH]; [done|].
  cbn [JS.split]. pose proof (split_nonempty "/" s) as Hne.
  destruct (Ascii.eqb_spec a "/") as [->|Hna].
  - destruct (JS.split "/" s) as [|h t]; [done|].
    change (JS.join "/" ("" :: h :: t)) with (String "/" (JS.join "/" (h :: t))).
    by rewrite IH.
  - destruct (JS.split "/" s) as [|h t]; [done|].
    rewrite <- IH. by destruct t.
Qed.

Lemma join_app (pre suf : list string) :
  pre <> [] -> suf <> [] ->
  JS.join "/" (pre ++ suf) = JS.join "/" pre +:+ String "/" (JS.join "/" suf).
Proof.
  intros Hpre Hsuf. destruct suf as [|y suf]; [done|]. clear Hsuf.
  induction pre as [|x [|x' pre] IH]; [done|done|].
  change (JS.join "/" ((x :: x' :: pre) ++ y :: suf))
    with (x +:+ ("/" +:+ JS.join "/" ((x' :: pre) ++ y :: suf))).
  rewrite IH by done.
  change (JS.join "/" (x :: x' :: pre)) with (x +:+ ("/" +:+ JS.join "/" (x' :: pre))).
  by rewrite !string_append_assoc.
Qed.

(** A string, cut at an index that holds [c]. *)
Lemma cut_at (c : ascii) (s : string) : forall k,
  String.get k s = Some c ->
  (k < String.length s)%nat /\
  exists tail, s = substring 0 k s +:+ String c tail /\
               forall j, String.get j tail = String.get (S (k + j)) s.
Proof.
  induction s as [|a s IH]; intros k Hk; [by destruct k|].
  destruct k as [|k]; simpl in Hk.
  - injection Hk as ->. split; [simpl; lia|]. by exists s.
  - destruct (IH k Hk) as (Hlen & tail & Heq & Hget).
    split; [simpl; lia|]. exists tail. split; [|done].
    change (String a s = String a (substring 0 k s +:+ String c tail)).
    by rewrite <- Heq.
Qed.

Lemma slice0_at (s : string) (k : nat) :
  (k < String.length s)%nat -> JS.slice0 s (Z.of_nat k) = substring 0 k s.
Proof.
  intros Hlt. unfold JS.slice0.
  destruct (Z.ltb_spec (Z.of_nat k) 0) as [?|_]; [lia|].
  by rewrite Z.min_l, Nat2Z.id by lia.
Qed.

(** A string that begins with something other than a slash splits into
    a first segment that is not empty. *)
Lemma split_first_segment (s : string) (k : nat) :
  Ref.absolute s = false -> (0 < k <= String.length s)%nat ->
  forall p rest, JS.split "/" (substring 0 k s) = p :: rest -> p <> "".
Proof.
  intros Habs Hk p rest. destruct s as [|a s]; destruct k as [|k];
    try (simpl in Hk; lia).
  simpl in Habs. cbn [substring JS.split]. rewrite Habs.
    destruct (JS.split "/" (substring 0 k s)); by intros [= <- _].
Qed.

(** X3: for a path that does not begin with a slash and has a
    directory part, that part is everything before the last slash, and
    what follows the slash, the file's own name, holds no slash; the
    last directory [mkpath] asks for is the whole directory part; and
    every directory it asks for is the path cut before one of its
    slashes. *)
Theorem relative_mkpath_follows_the_path (filePath : string) :
  let dirPath := JS.slice0 filePath (JS.lastIndexOf "/" filePath) in
  0 < JS.lastIndexOf "/" filePath ->
  Ref.absolute filePath = false ->
  (exists base, filePath = dirPath +:+ String "/" base /\
                forall k, String.get k base <> Some "/"%char) /\
  last (mkpath_targets filePath) = Some dirPath /\
  Forall (fun t => exists rest, filePath = t +:+ String "/" rest)
    (mkpath_targets filePath).
Proof.
  intros dirPath Hidx Habs.
  destruct (lastIndexOf_spec "/" filePath) as [[E _]|(k & E & Hk & Hafter)]; [lia|].
  destruct (cut_at "/" filePath k Hk) as (Hlen & base & Hcut & Hbase).
  assert (Hdir : dirPath = substring 0 k filePath).
  { unfold dirPath. rewrite E. by apply slice0_at. }
  assert (Hfile : filePath = dirPath +:+ String "/" base) by by rewrite Hdir.
  pose proof (relative_targets_are_increasing_prefixes filePath Hidx) as Htargets.
  cbv zeta in Htargets. fold dirPath in Htargets. rewrite Htargets.
  2:{ rewrite Hdir. apply split_first_segment; [done | lia]. }
  set (parts := JS.split "/" dirPath).
  assert (Hparts : parts <> []) by apply split_nonempty.
  assert (Hjoin : JS.join "/" parts = dirPath) by apply join_split.
  split; [|split].
  - exists base. split; [done|].
    intros j. rewrite Hbase. apply Hafter. lia.
  - destruct (List.length parts) as [|n] eqn:Hn; [by destruct parts|].
    rewrite seq_S, map_app. cbn [map]. rewrite last_snoc.
    change (1 + n)%nat with (S n). rewrite <- Hn, firstn_all. by rewrite Hjoin.
  - apply List.Forall_forall. intros t Ht.
    apply in_map_iff in Ht as (j & <- & Hj). apply in_seq in Hj.
    destruct (decide (j = List.length parts)) as [->|Hne].
    + rewrite firstn_all, Hjoin. by exists base.
    + exists (JS.join "/" (drop j parts) +:+ String "/" base).
      rewrite Hfile at 1. rewrite <- Hjoin at 1.
      rewrite <- (take_drop j parts) at 1.
      rewrite join_app.
      * rewrite string_append_assoc. done.
      * destruct parts; [done|]. destruct j; [lia | done].
      * intros Hnil. apply (f_equal List.length) in Hnil.
        rewrite length_drop in Hnil. simpl in Hnil. lia.
Qed.

Lemma relative_mkpath_follows_the_path_witness :
  (exists base, "out/dir/a.bin" = "out/dir" +:+ String "/" base /\
                forall k, String.get k base <> Some "/"%char) /\
  last (mkpath_targets "out/dir/a.bin") = Some "out/dir" /\
  Forall (fun t => exists rest, "out/dir/a.bin" = t +:+ String "/" rest)
    (mkpath_targets "out/dir/a.bin").
Proof.
  apply (relative_mkpath_follows_the_path "out/dir/a.bin").
  - reflexivity.
  - reflexivity.
Defined.

(** ** [download] on any host: what comes before what *)

Lemma only_mkdir_weaken (P : event -> Prop) (tr : list event) :
  (forall ev, is_mkdir ev = true -> P ev) ->
  Forall (fun ev => is_mkdir ev = true) tr -> Forall P tr.
Proof. intros HP Hall. eapply Forall_impl; [exact Hall | exact HP]. Qed.

(** X4: [download] verifies before it touches anything.  A run that
    calls [os.mkdir], [os.open] or [os.write] at all has fetched a
    payload, and either no digests were given or the payload's digest
    is among them; and what it writes is that very payload, whole and
    from its first byte. *)
Theorem nothing_touched_before_verification `{H : Host}
    (url filename : string) (checksums : option (list string)) (w : world)
    (ev : event) :
  let r := download url filename checksums w in
  In ev (res_trace r) ->
  mutates_fs ev = true ->
  exists P w',
    std_urlGet url w = (Some P, w') /\
    checksum_rejected checksums (sha256_hex P) = false /\
    (forall fd buf offset len n, ev = EvWrite fd buf offset len n ->
       buf = P /\ offset = 0 /\ len = byteLength P).
Proof.
  intros r Hin Hmut. subst r.
  destruct (download_has_shape url filename checksums w)
    as [w1|P0 w1 arr0 Hget Hsome Hinc|P0 w1 e0 Hget Hrej Hmk
       |P0 w1 w2 fd0 Hget Hrej Hmk Hopen Hfd
       |P0 w1 w2 w3 w4 fd0 n0 rc0 Hget Hrej Hmk Hopen Hfd Hwrite Hclose];
    unfold checksum_failure in *;
    cbn [res_trace res_outcome res_world] in Hin.
  - in_cases Hin; subst ev; discriminate.
  - in_cases Hin; subst ev; discriminate.
  - exists P0, w1. split; [done|]. split; [done|].
    intros fd buf offset len n ->. in_cases Hin; discriminate.
  - exists P0, w1. split; [done|]. split; [done|].
    intros fd buf offset len n ->. in_cases Hin; discriminate.
  - exists P0, w1. split; [done|]. split; [done|].
    intros fd buf offset len n ->. in_cases Hin; try discriminate.
    by injection Hin as _ -> -> ->.
Qed.

Lemma nothing_touched_before_verification_witness :
  exists P w',
    std_urlGet (Host := Demo.host) Demo.url Demo.roomy = (Some P, w') /\
    checksum_rejected (Some [SHA256.digest Demo.payload])
      (sha256_hex (Host := Demo.host) P) = false /\
    (forall fd buf offset len n,
       EvWrite 3 Demo.payload 0 4 4 = EvWrite fd buf offset len n ->
       buf = P /\ offset = 0 /\ len = byteLength P).
Proof.
  apply (nothing_touched_before_verification (H := Demo.host)
           Demo.url Demo.destination (Some [SHA256.digest Demo.payload])
           Demo.roomy (EvWrite 3 Demo.payload 0 4 4)).
  - vm_compute. do 4 right. left. reflexivity.
  - reflexivity.
Defined.

Lemma mkpath_uses_no_descriptor `{H : Host} filePath mode w :
  Forall (fun ev => uses_descriptor ev = false) (res_trace (mkpath filePath mode w)).
Proof.
  eapply only_mkdir_weaken; [|apply mkpath_only_mkdir]. by intros [].
Qed.


(** X5: when [os.open] answers a negative number, [download] neither
    writes nor closes: the open is its last call, it prints that the
    destination cannot be opened for writing, naming it, and leaves
    through [os.exit(1)]. *)
Theorem failed_open_is_reported `{H : Host}
    (url filename : string) (checksums : option (list string)) (w : world)
    (path : string) (flags mode fd : Z) :
  let r := download url filename checksums w in
  In (EvOpen path flags mode fd) (res_trace r) ->
  fd < 0 ->
  res_outcome r = Exited 1 /\
  (exists tr,
     res_trace r =
       tr ++ [EvOpen filename open_flags file_mode fd;
              EvErrPrintf fmt_cannot_open [JS.Str filename];
              EvExit 1] /\
     Forall (fun ev => uses_descriptor ev = false) tr) /\
  res_world r = (os_open filename open_flags file_mode
                   (res_world (mkpath filename default_dir_mode
                                 (std_urlGet url w).2))).2.
Proof.
  intros r Hin Hneg. subst r.
  run_cases Hin.
  - injection Hin as _ _ _ <-. rewrite Hget. cbn [snd]. rewrite Hopen.
    split; [done|]. split; [|done].
    exists (EvUrlGet url (Some P0) :: res_trace (mkpath filename default_dir_mode w1)).
    split; [done|]. constructor; [done | apply mkpath_uses_no_descriptor].
  - injection Hin as _ _ _ <-. lia.
Qed.

Lemma failed_open_is_reported_witness :
  let r := download (H := Demo.host) Demo.url "out/dir/" None Demo.roomy in
  res_outcome r = Exited 1 /\
  (exists tr,
     res_trace r =
       tr ++ [EvOpen "out/dir/" (open_flags (H := Demo.host)) file_mode (-21);
              EvErrPrintf fmt_cannot_open [JS.Str "out/dir/"];
              EvExit 1] /\
     Forall (fun ev => uses_descriptor ev = false) tr) /\
  res_world r =
    (os_open (Host := Demo.host) "out/dir/" (open_flags (H := Demo.host)) file_mode
       (res_world (mkpath (H := Demo.host) "out/dir/" default_dir_mode
                     (std_urlGet (Host := Demo.host) Demo.url Demo.roomy).2))).2.
Proof.
  apply (failed_open_is_reported (H := Demo.host)
           Demo.url "out/dir/" None Demo.roomy
           "out/dir/" (open_flags (H := Demo.host)) file_mode (-21)).
  - vm_compute. do 3 right. left. reflexivity.
  - lia.
Defined.

(** X6: a descriptor that [download] got from [os.open] is written to
    once, with the whole payload from its first byte, and closed right
    after, whether the write was complete or not; the run opens, writes
    and closes nothing else. *)
Theorem opened_descriptor_is_written_once_and_closed `{H : Host}
    (url filename : string) (checksums : option (list string)) (w : world)
    (path : string) (flags mode fd : Z) :
  let r := download url filename checksums w in
  In (EvOpen path flags mode fd) (res_trace r) ->
  0 <= fd ->
  exists tr P n rc tl,
    res_trace r =
      tr ++ [EvOpen filename open_flags file_mode fd;
             EvWrite fd P 0 (byteLength P) n;
             EvClose fd rc] ++ tl /\
    Forall (fun ev => uses_descriptor ev = false) tr /\
    Forall (fun ev => uses_descriptor ev = false) tl.
Proof.
  intros r Hin Hfd'. subst r.
  run_cases Hin.
  - injection Hin as _ _ _ <-. lia.
  - injection Hin as _ _ _ <-.
    exists (EvUrlGet url (Some P0) :: res_trace (mkpath filename default_dir_mode w1)),
      P0, n0, rc0.
    eexists. split; [done|]. split.
    + constructor; [done | apply mkpath_uses_no_descriptor].
    + destruct (n0 =? byteLength P0); by repeat constructor.
Qed.

Lemma opened_descriptor_is_written_once_and_closed_witness :
  let r := download (H := Demo.host) Demo.url Demo.destination None Demo.cramped in
  exists tr P n rc tl,
    res_trace r =
      tr ++ [EvOpen Demo.destination (open_flags (H := Demo.host)) file_mode 3;
             EvWrite 3 P 0 (byteLength P) n;
             EvClose 3 rc] ++ tl /\
    Forall (fun ev => uses_descriptor ev = false) tr /\
    Forall (fun ev => uses_descriptor ev = false) tl.
Proof.
  apply (opened_descriptor_is_written_once_and_closed (H := Demo.host)
           Demo.url Demo.destination None Demo.cramped
           Demo.destination (open_flags (H := Demo.host)) file_mode 3).
  - vm_compute. do 3 right. left. reflexivity.
  - lia.
Defined.


(** ** [mkpath] on the reference host: what it leaves behind *)

Lemma only_directories_added_refl mode w : only_directories_added mode w w.
Proof. unfold only_directories_added. repeat split; eauto. Qed.

Lemma only_directories_added_trans mode w1 w2 w3 :
  only_directories_added mode w1 w2 -> only_directories_added mode w2 w3 ->
  only_directories_added mode w1 w3.
Proof.
  intros (Hs1 & Ha1 & Hc1 & Hu1 & Hf1 & Hn1 & Hnet1 & Ht1 & Hfr1)
         (Hs2 & Ha2 & Hc2 & Hu2 & Hf2 & Hn2 & Hnet2 & Ht2 & Hfr2).
  unfold only_directories_added.
  split; [by etrans|]. split.
  { intros k v Hk. destruct (Ha2 k v Hk) as [Hk2| ->].
    - by apply Ha1.
    - right. by rewrite Hu1. }
  repeat split; try congruence. lia.
Qed.

Lemma ref_mkdir_only_adds path mode w :
  only_directories_added mode w (Ref.mkdir path mode w).2.
Proof.
  destruct (ref_mkdir_cases path mode w) as [(key & _ & _ & Hnone & ->)|(e & _ & ->)].
  - unfold only_directories_added. cbn [snd Ref.set_nodes Ref.nodes Ref.cwd
      Ref.umask Ref.fds Ref.next_fd Ref.net Ref.mkdir_throws Ref.free].
    split; [by apply insert_subseteq|]. split.
    { intros k v Hk. destruct (decide (k = key)) as [->|Hne].
      - rewrite lookup_insert_eq in Hk. injection Hk as <-. by right.
      - rewrite lookup_insert_ne in Hk by done. by left. }
    repeat split; try done. lia.
  - apply only_directories_added_refl.
Qed.

Lemma ref_loop_only_adds (digest : bytes -> string) parts : forall t mode w,
  only_directories_added mode w
    (res_world (mkpath_loop (H := Ref.host digest) parts t mode w)).
Proof.
  induction parts as [|p rest IH]; intros t mode w.
  - apply only_directories_added_refl.
  - rewrite mkpath_loop_cons. cbv zeta.
    assert (Hstep : only_directories_added mode w
                      (res_world (mkdir_step (H := Ref.host digest) (extend t p) mode w))).
    { destruct (ref_mkdir_step digest (extend t p) mode w)
        as [(key & _ & _ & ->)|(e & _ & -> & _)].
      - apply ref_mkdir_only_adds.
      - apply only_directories_added_refl. }
    destruct (res_outcome (mkdir_step (H := Ref.host digest) (extend t p) mode w));
      cbn [res_world prepend]; [|done|done].
    eapply only_directories_added_trans; [exact Hstep | apply IH].
Qed.

Lemma ref_mkpath_only_adds (digest : bytes -> string) filePath mode w :
  only_directories_added mode w
    (res_world (mkpath (H := Ref.host digest) filePath mode w)).
Proof.
  unfold mkpath. destruct (_ <=? 0).
  - apply only_directories_added_refl.
  - apply ref_loop_only_adds.
Qed.

(** X8: on the reference host [mkpath], however it ends, removes and
    alters nothing: every file and directory that was there is there
    unchanged; what is new is a directory with the bits of [mode] that
    the umask leaves; and the working directory, the umask, the open
    descriptors and the way errors are reported are as before. *)
Theorem ref_mkpath_only_adds_directories (digest : bytes -> string)
    (filePath : string) (mode : Z) (w : Ref.fs) :
  let w' := res_world (mkpath (H := Ref.host digest) filePath mode w) in
  (forall k v, Ref.nodes w !! k = Some v -> Ref.nodes w' !! k = Some v) /\
  (forall k v, Ref.nodes w' !! k = Some v ->
     Ref.nodes w !! k = Some v \/ v = Ref.Dir (Ref.masked mode (Ref.umask w))) /\
  (forall path data, Ref.read_file w path = Some data ->
     Ref.read_file w' path = Some data) /\
  Ref.cwd w' = Ref.cwd w /\
  Ref.umask w' = Ref.umask w /\
  Ref.fds w' = Ref.fds w /\
  Ref.mkdir_throws w' = Ref.mkdir_throws w.
Proof.
  cbv zeta.
  destruct (ref_mkpath_only_adds digest filePath mode w)
    as (Hsub & Hadd & Hcwd & Hum & Hfds & _ & _ & Hthrows & _).
  split; [intros k v Hk; by eapply lookup_weaken|].
  split; [exact Hadd|]. split; [|done].
  intros path data. unfold Ref.read_file, Ref.locate. rewrite Hcwd.
  destruct (String.eqb path ""); [done|].
  destruct (Ref.walk (Ref.nodes w) _ _) as [e|key] eqn:Hwalk; [done|].
  rewrite (walk_mono _ _ _ _ _ Hsub Hwalk).
  destruct (Ref.nodes w !! key) as [v|] eqn:Hkey; [|done].
  by rewrite (lookup_weaken _ _ _ _ Hkey Hsub).
Qed.

(** X9: on the reference host, where [os.mkdir] throws, a [mkpath] that
    returned has left something at every path it asked for: the
    directory it made there, or what was there before it began. *)
Theorem ref_mkpath_return_means_ancestors (digest : bytes -> string)
    (filePath : string) (mode : Z) (w : Ref.fs) :
  let r := mkpath (H := Ref.host digest) filePath mode w in
  Ref.mkdir_throws w = true ->
  res_outcome r = Returned tt ->
  Forall (fun t =>
            exists key v,
              Ref.locate (res_world r) t = inr key /\
              Ref.nodes (res_world r) !! key = Some v /\
              (Ref.nodes w !! key = Some v \/
               v = Ref.Dir (Ref.masked mode (Ref.umask w))))
    (mkpath_targets filePath).
Proof.
  intros r Hthrows Hret. subst r.
  destruct (ref_mkpath_only_adds digest filePath mode w)
    as (_ & Hadd & _ & _ & _ & _ & _ & Hsame & _).
  revert Hret Hadd Hsame. unfold mkpath, mkpath_targets.
  destruct (_ <=? 0); [constructor|]. intros Hret Hadd Hsame.
  pose proof (ref_loop_settles digest _ "" mode w Hret) as Hall.
  eapply Forall_impl; [exact Hall|]. intros t (e & E & Hkind).
  rewrite Hsame in Hkind. rewrite (Hkind Hthrows) in E.
  apply occupied_iff in E as (key & v & Hloc & Hkey).
  exists key, v. split; [done|]. split; [done|]. by apply Hadd.
Qed.

Lemma ref_mkpath_return_means_ancestors_witness :
  let r := mkpath (H := Demo.host) Demo.destination default_dir_mode Demo.roomy in
  Forall (fun t =>
            exists key v,
              Ref.locate (res_world r) t = inr key /\
              Ref.nodes (res_world r) !! key = Some v /\
              (Ref.nodes Demo.roomy !! key = Some v \/
               v = Ref.Dir (Ref.masked default_dir_mode (Ref.umask Demo.roomy))))
    (mkpath_targets Demo.destination).
Proof.
  apply (ref_mkpath_return_means_ancestors SHA256.digest
           Demo.destination default_dir_mode Demo.roomy).
  - reflexivity.
  - reflexivity.
Defined.

(** ** [download] on the reference host: what it leaves behind *)

Lemma locate_mono (w w' : Ref.fs) (path : string) (k : list string) :
  Ref.nodes w ⊆ Ref.nodes w' -> Ref.cwd w' = Ref.cwd w ->
  Ref.locate w path = inr k -> Ref.locate w' path = inr k.
Proof.
  intros Hsub Hcwd. unfold Ref.locate. rewrite Hcwd.
  destruct (String.eqb path ""); [done|]. by apply walk_mono.
Qed.

Lemma locate_insert_file (w w' : Ref.fs) key perm data (path : string) (k : list string) :
  Ref.nodes w' = <[key := Ref.File perm data]> (Ref.nodes w) ->
  Ref.cwd w' = Ref.cwd w ->
  (forall p, Ref.nodes w !! key <> Some (Ref.Dir p)) ->
  Ref.locate w path = inr k -> Ref.locate w' path = inr k.
Proof.
  intros Hnodes Hcwd Hnodir. unfold Ref.locate. rewrite Hcwd, Hnodes.
  destruct (String.eqb path ""); [done|]. by apply walk_insert_file.
Qed.

Lemma read_file_mono (w w' : Ref.fs) (path : string) (data : bytes) :
  Ref.nodes w ⊆ Ref.nodes w' -> Ref.cwd w' = Ref.cwd w ->
  Ref.read_file w path = Some data -> Ref.read_file w' path = Some data.
Proof.
  intros Hsub Hcwd. unfold Ref.read_file.
  destruct (Ref.locate w path) as [e|k] eqn:Hloc; [done|].
  rewrite (locate_mono w w' path k Hsub Hcwd Hloc).
  destruct (Ref.nodes w !! k) as [v|] eqn:Hk; [|done].
  by rewrite (lookup_weaken _ _ _ _ Hk Hsub).
Qed.

(** The file mode of [download] never lets the owner write. *)
Lemma file_mode_not_writable (um : Z) :
  Ref.owner_writable (Ref.masked file_mode um) = false.
Proof. unfold Ref.owner_writable, Ref.masked. by rewrite Z.land_spec. Qed.

Section RefDownload.
Variable digest : bytes -> string.

(** [open], [write] and [close] in a row, however much was written. *)
Lemma ref_open_write_close_any filename P w1 fd w2 n w3 rc w4 :
  Ref.open filename (open_flags (H := Ref.host digest)) file_mode w1 = (fd, w2) ->
  0 <= fd ->
  Ref.write fd P 0 (byteLength P) w2 = (n, w3) ->
  Ref.close fd w3 = (rc, w4) ->
  exists key perm,
    Ref.locate w1 filename = inr key /\
    (forall p, Ref.nodes w1 !! key <> Some (Ref.Dir p)) /\
    (Ref.nodes w1 !! key = None -> perm = Ref.masked file_mode (Ref.umask w1)) /\
    (forall p d, Ref.nodes w1 !! key = Some (Ref.File p d) -> perm = p) /\
    0 <= n <= byteLength P /\
    Ref.nodes w4 = <[key := Ref.File perm (take (Z.to_nat n) P)]> (Ref.nodes w1) /\
    Ref.cwd w4 = Ref.cwd w1 /\
    Ref.umask w4 = Ref.umask w1 /\
    Ref.mkdir_throws w4 = Ref.mkdir_throws w1 /\
    Ref.net w4 = Ref.net w1.
Proof.
  intros Hopen Hfd Hwrite Hclose.
  destruct (ref_open_ok digest _ _ _ _ Hopen Hfd)
    as (key & perm & fr & Hloc & Hnodir & Hfresh & Hold & Hfdv & ->).
  unfold Ref.write in Hwrite. cbn [Ref.fds Ref.set_fds Ref.nodes Ref.set_nodes] in Hwrite.
  rewrite !lookup_insert_eq in Hwrite.
  cbn [Ref.free Ref.next_fd] in Hwrite.
  rewrite drop_0 in Hwrite.
  unfold byteLength in *. rewrite Nat2Z.id, firstn_all in Hwrite.
  injection Hwrite as Hnv <-.
  unfold Ref.close in Hclose. cbn [Ref.fds Ref.set_fds] in Hclose.
  rewrite lookup_insert_eq in Hclose. injection Hclose as _ <-.
  cbn [Ref.nodes Ref.cwd Ref.umask Ref.mkdir_throws Ref.net Ref.set_fds Ref.set_nodes].
  exists key, perm. repeat (split; [done|]).
  split; [lia|]. split; [|done].
  unfold Ref.splice. rewrite insert_insert_eq. simpl.
  rewrite drop_nil, app_nil_r. by rewrite <- Hnv, Nat2Z.id.
Qed.

(** The two kinds of run on the reference host: one that wrote nothing
    and ends in the world it began in or in the one [mkpath] left, and
    one that opened the destination and wrote to it. *)
Lemma ref_open_failed filename flags mode (w1 : Ref.fs) fd w2 :
  Ref.open filename flags mode w1 = (fd, w2) -> fd < 0 -> w2 = w1.
Proof.
  unfold Ref.open. destruct (Ref.open_errno w1 filename flags mode) as [e|[[key nd] fr]].
  - by intros [= _ <-].
  - intros [= <- _]. lia.
Qed.

Lemma ref_download_cases url filename checksums (w : Ref.fs) :
  let r := download (H := Ref.host digest) url filename checksums w in
  let w1 := res_world (mkpath (H := Ref.host digest) filename default_dir_mode w) in
  ((res_world r = w \/ res_world r = w1) /\
   res_outcome r <> Returned tt /\
   (forall fd buf offset len n, ~ In (EvWrite fd buf offset len n) (res_trace r)) /\
   (forall path flags mode fd, In (EvOpen path flags mode fd) (res_trace r) ->
      Ref.open filename (open_flags (H := Ref.host digest)) file_mode w1 = (fd, w1))) \/
  (exists fd P n key perm,
     (forall fd' buf offset len n',
        In (EvWrite fd' buf offset len n') (res_trace r) -> buf = P /\ n' = n) /\
     res_outcome r = (if n =? byteLength P then Returned tt else Exited 1) /\
     (exists w2, Ref.open filename (open_flags (H := Ref.host digest)) file_mode w1
                   = (fd, w2)) /\
     0 <= fd /\
     Ref.locate w1 filename = inr key /\
     (forall p, Ref.nodes w1 !! key <> Some (Ref.Dir p)) /\
     (Ref.nodes w1 !! key = None -> perm = Ref.masked file_mode (Ref.umask w1)) /\
     0 <= n <= byteLength P /\
     Ref.nodes (res_world r) =
       <[key := Ref.File perm (take (Z.to_nat n) P)]> (Ref.nodes w1) /\
     Ref.cwd (res_world r) = Ref.cwd w1 /\
     Ref.umask (res_world r) = Ref.umask w1 /\
     Ref.mkdir_throws (res_world r) = Ref.mkdir_throws w1 /\
     Ref.net (res_world r) = Ref.net w1).
Proof.
  cbv zeta.
  destruct (download_has_shape (H := Ref.host digest) url filename checksums w)
    as [w1 Hget|P0 w1 arr0 Hget Hsome Hinc|P0 w1 e0 Hget Hrej Hmk
       |P0 w1 w2 fd0 Hget Hrej Hmk Hopen Hfd
       |P0 w1 w2 w3 w4 fd0 n0 rc0 Hget Hrej Hmk Hopen Hfd Hwrite Hclose];
    unfold checksum_failure in *;
    cbn [res_trace res_outcome res_world];
    cbn [std_urlGet Ref.host] in Hget; unfold Ref.urlGet in Hget;
    injection Hget as Hnet <-.
  - left. split; [by left|]. split; [done|]. split.
    + intros fd buf offset len n Hin. in_cases Hin; discriminate.
    + intros path flags mode fd Hin. in_cases Hin; discriminate.
  - left. split; [by left|]. split; [done|]. split.
    + intros fd buf offset len n Hin. in_cases Hin; discriminate.
    + intros path flags mode fd Hin. in_cases Hin; discriminate.
  - left. split; [by right|]. split; [done|]. split.
    + intros fd buf offset len n Hin. in_cases Hin; discriminate.
    + intros path flags mode fd Hin. in_cases Hin; discriminate.
  - cbn [os_open Ref.host] in Hopen.
    pose proof (ref_open_failed _ _ _ _ _ _ Hopen Hfd) as ->.
    left. split; [by right|]. split; [done|]. split.
    + intros fd buf offset len n Hin. in_cases Hin; discriminate.
    + intros path flags mode fd Hin. in_cases Hin; try discriminate.
      by injection Hin as _ _ _ <-.
  - cbn [os_open os_write os_close Ref.host] in Hopen, Hwrite, Hclose.
    destruct (ref_open_write_close_any _ _ _ _ _ _ _ _ _ Hopen Hfd Hwrite Hclose)
      as (key & perm & Hloc & Hnodir & Hfresh & _ & Hn & Hnodes & Hcwd & Hum & Hthr & Hnt).
    right. exists fd0, P0, n0, key, perm.
    split.
    { intros fd' buf offset len n' Hin. in_cases Hin; try discriminate.
      by injection Hin as _ <- _ _ <-. }
    split; [done|]. split; [by exists w2|].
    by repeat (split; [done|]).
Qed.

End RefDownload.



(** X11: on the reference host [download], however it ends, leaves
    every directory in place, so that every path that led somewhere
    leads to the same place afterwards, and every regular file other
    than the one its destination names keeps its content. *)
Theorem download_keeps_other_entries (digest : bytes -> string)
    (url filename : string) (checksums : option (list string)) (w : Ref.fs) :
  let w' := res_world (download (H := Ref.host digest) url filename checksums w) in
  (forall k p, Ref.nodes w !! k = Some (Ref.Dir p) ->
     Ref.nodes w' !! k = Some (Ref.Dir p)) /\
  (forall path k, Ref.locate w path = inr k -> Ref.locate w' path = inr k) /\
  (forall path data,
     Ref.read_file w path = Some data ->
     Ref.locate w' path <> Ref.locate w' filename ->
     Ref.read_file w' path = Some data).
Proof.
  cbv zeta.
  destruct (ref_mkpath_only_adds digest filename default_dir_mode w)
    as (Hsub & _ & Hcwd1 & _).
  set (w1 := res_world (mkpath (H := Ref.host digest) filename default_dir_mode w)) in *.
  destruct (ref_download_cases digest url filename checksums w)
    as [(Hworld & _)
       |(fd0 & P & n0 & key & perm & _ & _ & _ & _ & Hloc & Hnodir & _ & _
           & Hnodes & Hcwd & _)].
  - assert (Hsub' : Ref.nodes w ⊆
              Ref.nodes (res_world (download (H := Ref.host digest) url filename checksums w))
            /\ Ref.cwd (res_world (download (H := Ref.host digest) url filename checksums w))
               = Ref.cwd w).
    { destruct Hworld as [->| ->]; [done|]. by fold w1. }
    destruct Hsub' as [Hs Hc].
    split; [intros k p Hk; by eapply lookup_weaken|].
    split; [intros path k; by apply locate_mono|].
    intros path data Hread _. by eapply read_file_mono.
  - fold w1 in Hloc, Hnodir, Hnodes, Hcwd.
    set (w' := res_world (download (H := Ref.host digest) url filename checksums w)) in *.
    assert (Hpaths : forall path k, Ref.locate w path = inr k -> Ref.locate w' path = inr k).
    { intros path k Hk.
      eapply locate_insert_file; [exact Hnodes | exact Hcwd | exact Hnodir |].
      by eapply locate_mono. }
    split; [|split; [exact Hpaths|]].
    + intros k p Hk. pose proof (lookup_weaken _ _ _ _ Hk Hsub) as Hk1.
      rewrite Hnodes, lookup_insert_ne; [done|]. intros <-. by eapply Hnodir.
    + intros path data Hread Hne. unfold Ref.read_file in *.
      destruct (Ref.locate w path) as [e|k] eqn:Hk; [done|].
      rewrite (Hpaths path k Hk) in Hne |- *.
      assert (Hkey : Ref.locate w' filename = inr key).
      { eapply locate_insert_file; [exact Hnodes | exact Hcwd | exact Hnodir | exact Hloc]. }
      rewrite Hkey in Hne.
      destruct (Ref.nodes w !! k) as [v|] eqn:Hv; [|done].
      rewrite Hnodes, lookup_insert_ne by congruence.
      by rewrite (lookup_weaken _ _ _ _ Hv Hsub).
Qed.

(** On the reference host, a regular file that its owner may not write
    cannot be opened the way [download] opens its destination. *)
Lemma ref_open_refused (digest : bytes -> string) filename (w : Ref.fs) key perm data :
  Ref.locate w filename = inr key ->
  Ref.nodes w !! key = Some (Ref.File perm data) ->
  Ref.owner_writable perm = false ->
  exists e, Ref.open filename (open_flags (H := Ref.host digest)) file_mode w
            = (- Ref.errno_code e, w).
Proof.
  intros Hloc Hkey Hperm. unfold Ref.open, Ref.open_errno. rewrite Hloc.
  destruct (Ref.ends_in_slash filename); [by exists Ref.EISDIR|].
  rewrite Hkey, Hperm.
  destruct (ref_open_flags digest) as (_ & _ & ->).
  rewrite andb_false_r. by exists Ref.EACCES.
Qed.

(** X12: on the reference host, where the owner's permission bits
    decide, [download] cannot replace a file it created.  The mode
    [0x755] it creates the file with lacks the owner's write bit, so
    when a first run returned and nothing had been at the destination
    before it, a second run for the same destination, whatever it
    fetches, is refused by [os.open]: it writes nothing, does not
    return, and the file keeps the content the first run gave it. *)
Theorem created_file_blocks_the_next_download (digest : bytes -> string)
    (url url' filename : string) (checksums checksums' : option (list string))
    (w : Ref.fs) :
  let r1 := download (H := Ref.host digest) url filename checksums w in
  let r2 := download (H := Ref.host digest) url' filename checksums' (res_world r1) in
  res_outcome r1 = Returned tt ->
  (forall key, Ref.locate (res_world r1) filename = inr key ->
               Ref.nodes w !! key = None) ->
  res_outcome r2 <> Returned tt /\
  (forall fd buf offset len n, ~ In (EvWrite fd buf offset len n) (res_trace r2)) /\
  (forall path flags mode fd, In (EvOpen path flags mode fd) (res_trace r2) -> fd < 0) /\
  Ref.read_file (res_world r2) filename = Ref.read_file (res_world r1) filename.
Proof.
  intros r1 r2 Hret Hfresh.
  (* the first run *)
  destruct (ref_mkpath_only_adds digest filename default_dir_mode w)
    as (_ & Hadd & _).
  destruct (ref_download_cases digest url filename checksums w)
    as [(_ & Hnot & _)
       |(fd0 & P & n0 & key & perm & _ & _ & _ & _ & Hloc & Hnodir & Hperm & _
           & Hnodes & Hcwd & _)]; [done|].
  fold r1 in Hnodes, Hcwd.
  assert (Hkey : Ref.locate (res_world r1) filename = inr key).
  { eapply locate_insert_file; [exact Hnodes | exact Hcwd | exact Hnodir | exact Hloc]. }
  assert (Hnone : Ref.nodes
            (res_world (mkpath (H := Ref.host digest) filename default_dir_mode w))
            !! key = None).
  { destruct (Ref.nodes _ !! key) as [v|] eqn:Hv; [|done].
    destruct (Hadd key v Hv) as [Hw| ->].
    - by rewrite (Hfresh key Hkey) in Hw.
    - by destruct (Hnodir _ eq_refl). }
  rewrite (Hperm Hnone) in Hnodes. clear Hperm Hadd Hnone Hnodir Hloc.
  set (perm0 := Ref.masked file_mode _) in Hnodes.
  assert (Hfile : Ref.nodes (res_world r1) !! key
                  = Some (Ref.File perm0 (take (Z.to_nat n0) P)))
    by by rewrite Hnodes, lookup_insert_eq.
  assert (Hread1 : Ref.read_file (res_world r1) filename = Some (take (Z.to_nat n0) P))
    by (unfold Ref.read_file; by rewrite Hkey, Hfile).
  (* the second run *)
  destruct (ref_mkpath_only_adds digest filename default_dir_mode (res_world r1))
    as (Hsub & _ & Hcwd2 & _).
  set (w2 := res_world (mkpath (H := Ref.host digest) filename default_dir_mode
                          (res_world r1))) in *.
  destruct (ref_open_refused digest filename w2 key perm0 (take (Z.to_nat n0) P))
    as (e & Hrefused).
  { by eapply locate_mono. }
  { by eapply lookup_weaken. }
  { apply file_mode_not_writable. }
  pose proof (errno_code_pos e) as Hpos.
  destruct (ref_download_cases digest url' filename checksums' (res_world r1))
    as [(Hworld & Hnot & Hnowrite & Hopens)
       |(fd1 & P1 & n1 & key1 & perm1 & _ & _ & (w3 & Hopen) & Hfd & _)].
  - fold r2 in Hworld, Hnot, Hnowrite, Hopens. fold w2 in Hworld, Hopens.
    split; [done|]. split; [done|]. split.
    + intros path flags mode fd Hin. specialize (Hopens _ _ _ _ Hin).
      rewrite Hrefused in Hopens. injection Hopens as <-. lia.
    + rewrite Hread1. destruct Hworld as [->| ->]; [done|].
      by eapply read_file_mono.
  - fold w2 in Hopen. rewrite Hrefused in Hopen. injection Hopen as <- _. lia.
Qed.

Lemma created_file_blocks_the_next_download_witness :
  let r1 := download (H := Demo.host) Demo.url Demo.destination None Demo.roomy in
  let r2 := download (H := Demo.host) Demo.url Demo.destination None (res_world r1) in
  res_outcome r2 <> Returned tt /\
  (forall fd buf offset len n, ~ In (EvWrite fd buf offset len n) (res_trace r2)) /\
  (forall path flags mode fd, In (EvOpen path flags mode fd) (res_trace r2) -> fd < 0) /\
  Ref.read_file (res_world r2) Demo.destination =
    Ref.read_file (res_world r1) Demo.destination.
Proof.
  apply (created_file_blocks_the_next_download SHA256.digest
           Demo.url Demo.url Demo.destination None None Demo.roomy).
  - reflexivity.
  - intros key Hkey. vm_compute in Hkey. injection Hkey as <-. reflexivity.
Defined.

(** ** [main]: the manifest first, then its entries in order *)

Section MainRuns.
Context `{S : ScriptHost}.

Lemma result_eta {A} (r : result A) :
  Result (res_outcome r) (res_world r) (res_trace r) = r.
Proof. by destruct r. Qed.

Lemma prepend_prepend {A} (tr1 tr2 : list event) (r : result A) :
  prepend tr1 (prepend tr2 r) = prepend (tr1 ++ tr2) r.
Proof. unfold prepend. simpl. by rewrite app_assoc. Qed.

Lemma bind_ret {A B} (a : A) (k : A -> M B) (w : world) : bind (ret a) k w = k a w.
Proof. unfold bind, ret. simpl. apply prepend_nil. Qed.

(** The body of the loop, one branch at a time. *)
Lemma entry_body_run entry w :
  entry_body entry w =
    if Value.nullish entry then Result (Thrown (type_error entry)) w []
    else if negb (Value.truthy (Value.property entry "url"))
            || negb (Value.truthy (Value.property entry "filename"))
    then Result (Exited 1) w [EvErrPrint msg_invalid_entry; EvExit 1]
    else call_download (Value.property entry "url") (Value.property entry "filename")
           (Value.property entry "checksums") w.
Proof.
  unfold entry_body, get. destruct (Value.nullish entry); [done|].
  rewrite !bind_ret.
  destruct (negb _ || negb _); [done|]. by rewrite bind_ret.
Qed.

Lemma for_entries_cons e es w :
  for_entries (e :: es) w =
    match res_outcome (entry_body e w) with
    | Returned _ =>
        prepend (res_trace (entry_body e w))
          (for_entries es (res_world (entry_body e w)))
    | Thrown e0 =>
        Result (Thrown e0) (res_world (entry_body e w)) (res_trace (entry_body e w))
    | Exited c =>
        Result (Exited c) (res_world (entry_body e w)) (res_trace (entry_body e w))
    end.
Proof. done. Qed.

Lemma for_entries_app es1 : forall es2 w,
  for_entries (es1 ++ es2) w =
    match res_outcome (for_entries es1 w) with
    | Returned _ =>
        prepend (res_trace (for_entries es1 w))
          (for_entries es2 (res_world (for_entries es1 w)))
    | _ => for_entries es1 w
    end.
Proof.
  induction es1 as [|e es1 IH]; intros es2 w.
  - simpl. by rewrite prepend_nil.
  - change ((e :: es1) ++ es2) with (e :: (es1 ++ es2)).
    rewrite !for_entries_cons.
    destruct (entry_body e w) as [[[]|e0|c] w1 tr1]; cbn [res_outcome res_world res_trace];
      [|done|done].
    rewrite IH. cbn [prepend res_outcome res_world res_trace].
    destruct (res_outcome (for_entries es1 w1)); [|done|done].
    by rewrite prepend_prepend.
Qed.

Lemma load_guarded (path encoding msg : string) w :
  try_catch (loadFile path encoding) (fun _ => err_print msg ;;; exit 1) w =
    let '(a, w1) := std_loadFile path encoding w in
    match a with
    | Answers v => Result (Returned v) w1 []
    | Throws _ => Result (Exited 1) w1 [EvErrPrint msg; EvExit 1]
    end.
Proof.
  unfold try_catch, loadFile. by destruct (std_loadFile path encoding w) as [[v|e] w1].
Qed.

Lemma parse_guarded (text : Value.value) (msg : string) w :
  try_catch (parseExtJSON text) (fun _ => err_print msg ;;; exit 1) w =
    let '(a, w1) := std_parseExtJSON text w in
    match a with
    | Answers v => Result (Returned v) w1 []
    | Throws _ => Result (Exited 1) w1 [EvErrPrint msg; EvExit 1]
    end.
Proof.
  unfold try_catch, parseExtJSON. by destruct (std_parseExtJSON text w) as [[v|e] w1].
Qed.

(** [main], one branch at a time. *)
Lemma main_run w :
  main w =
    let '(a, w1) := std_loadFile "boot/config.json" "utf-8" w in
    match a with
    | Throws _ => Result (Exited 1) w1 [EvErrPrint msg_cannot_read; EvExit 1]
    | Answers text =>
        let '(b, w2) := std_parseExtJSON text w1 in
        match b with
        | Throws _ => Result (Exited 1) w2 [EvErrPrint msg_invalid_json; EvExit 1]
        | Answers config =>
            if Value.nullish config then Result (Thrown (type_error config)) w2 []
            else if Value.isArray (Value.property config "downloads") then
              for_entries (Value.elements (Value.property config "downloads")) w2
            else Result (Exited 1) w2 [EvErrPrint msg_not_an_array; EvExit 1]
        end
    end.
Proof.
  unfold main. unfold bind at 1. rewrite load_guarded.
  destruct (std_loadFile "boot/config.json" "utf-8" w) as [[text|e] w1];
    cbn [res_outcome res_world res_trace]; [|done].
  rewrite prepend_nil.
  unfold bind at 1. rewrite parse_guarded.
  destruct (std_parseExtJSON text w1) as [[config|e] w2];
    cbn [res_outcome res_world res_trace]; [|done].
  rewrite prepend_nil. unfold get.
  destruct (Value.nullish config); [done|].
  rewrite bind_ret.
  destruct (Value.isArray (Value.property config "downloads")); [|done].
  cbn [negb]. by rewrite bind_ret.
Qed.

End MainRuns.

(** X13: [main] calls nothing before it has a manifest it can use.
    When [std.loadFile] throws, when [std.parseExtJSON] throws, and
    when what was parsed has no array under [downloads] (the key
    missing included), it prints the message for that case and leaves
    through [os.exit(1)], in the world the last of these calls left;
    when what was parsed is [null] or [undefined], reading [downloads]
    throws a [TypeError] that nothing catches, and nothing is printed.
    So a run that fetched, created, opened or wrote anything had read
    and parsed the manifest and found an array there, and is the loop
    over that array. *)
Theorem main_calls_nothing_before_the_manifest `{S : ScriptHost} (w : world) :
  let r := main w in
  (forall e w1,
     std_loadFile "boot/config.json" "utf-8" w = (Throws e, w1) ->
     r = Result (Exited 1) w1 [EvErrPrint msg_cannot_read; EvExit 1]) /\
  (forall text w1 e w2,
     std_loadFile "boot/config.json" "utf-8" w = (Answers text, w1) ->
     std_parseExtJSON text w1 = (Throws e, w2) ->
     r = Result (Exited 1) w2 [EvErrPrint msg_invalid_json; EvExit 1]) /\
  (forall text w1 config w2,
     std_loadFile "boot/config.json" "utf-8" w = (Answers text, w1) ->
     std_parseExtJSON text w1 = (Answers config, w2) ->
     Value.nullish config = true ->
     r = Result (Thrown (type_error config)) w2 []) /\
  (forall text w1 config w2,
     std_loadFile "boot/config.json" "utf-8" w = (Answers text, w1) ->
     std_parseExtJSON text w1 = (Answers config, w2) ->
     Value.nullish config = false ->
     Value.isArray (Value.property config "downloads") = false ->
     r = Result (Exited 1) w2 [EvErrPrint msg_not_an_array; EvExit 1]) /\
  (forall ev,
     In ev (res_trace r) -> on_stderr ev = false -> is_exit ev = false ->
     exists text w1 config w2 items,
       std_loadFile "boot/config.json" "utf-8" w = (Answers text, w1) /\
       std_parseExtJSON text w1 = (Answers config, w2) /\
       Value.nullish config = false /\
       Value.property config "downloads" = Value.Array items /\
       r = for_entries items w2).
Proof.
  cbv zeta. rewrite main_run.
  destruct (std_loadFile "boot/config.json" "utf-8" w) as [[text|e] w1].
  2:{ refine (conj _ (conj _ (conj _ (conj _ _)))); [|done|done|done|].
      - by intros ? ? [= _ <-].
      - intros ev Hin Herr Hexit. cbn [res_trace] in Hin.
        in_cases Hin; subst ev; discriminate. }
  destruct (std_parseExtJSON text w1) as [[config|e] w2] eqn:Hparse.
  2:{ refine (conj _ (conj _ (conj _ (conj _ _)))); [done| | | |].
      - intros ? ? ? ? [= <- <-]. rewrite Hparse. by intros [= _ <-].
      - intros ? ? ? ? [= <- <-]. by rewrite Hparse.
      - intros ? ? ? ? [= <- <-]. by rewrite Hparse.
      - intros ev Hin Herr Hexit. cbn [res_trace] in Hin.
        in_cases Hin; subst ev; discriminate. }
  destruct (Value.nullish config) eqn:Hnull.
  { refine (conj _ (conj _ (conj _ (conj _ _)))); [done| | | |].
    - intros ? ? ? ? [= <- <-]. by rewrite Hparse.
    - intros ? ? ? ? [= <- <-]. rewrite Hparse. by intros [= <- <-].
    - intros ? ? ? ? [= <- <-]. rewrite Hparse. intros [= <- <-]. congruence.
    - by intros ev []. }
  destruct (Value.isArray (Value.property config "downloads")) eqn:Harr.
  - refine (conj _ (conj _ (conj _ (conj _ _)))); [done| | | |].
    + intros ? ? ? ? [= <- <-]. by rewrite Hparse.
    + intros ? ? ? ? [= <- <-]. rewrite Hparse. intros [= <- <-]. congruence.
    + intros ? ? ? ? [= <- <-]. rewrite Hparse. intros [= <- <-]. congruence.
    + intros ev _ _ _.
      destruct (Value.property config "downloads") as [| | | | |items|] eqn:Hprop;
        try discriminate.
      by exists text, w1, config, w2, items.
  - refine (conj _ (conj _ (conj _ (conj _ _)))); [done| | | |].
    + intros ? ? ? ? [= <- <-]. by rewrite Hparse.
    + intros ? ? ? ? [= <- <-]. rewrite Hparse. intros [= <- <-]. congruence.
    + intros ? ? ? ? [= <- <-]. rewrite Hparse. by intros [= <- <-].
    + intros ev Hin Herr Hexit. cbn [res_trace] in Hin.
      in_cases Hin; subst ev; discriminate.
Qed.

(** X14: the loop of [main] takes the entries in order and stops at the
    first one that does not return.  For a list of entries followed by
    more: when the first part returns, the whole is the first part and
    then the rest, run in the world the first part left; when the
    first part ends in an exit or a throw, the whole ends there, the
    same way, and the rest is never looked at. *)
Theorem entries_run_in_order_until_one_fails `{S : ScriptHost}
    (es1 es2 : list Value.value) (w : world) :
  let r1 := for_entries es1 w in
  (res_outcome r1 = Returned tt ->
   for_entries (es1 ++ es2) w =
     prepend (res_trace r1) (for_entries es2 (res_world r1))) /\
  (res_outcome r1 <> Returned tt ->
   for_entries (es1 ++ es2) w = r1) /\
  for_entries [] w = Result (Returned tt) w [].
Proof.
  cbv zeta. rewrite for_entries_app. split; [|split; [|done]].
  - by intros ->.
  - intros Hne. by destruct (res_outcome (for_entries es1 w)) as [[]| |].
Qed.

(** X15: an entry is checked only when the loop reaches it.  When the
    entries before it have returned, an entry that is an object (or
    anything but [null] and [undefined]) whose [url] or [filename] is
    missing or falsy makes [main] print that the entry is invalid and
    leave through [os.exit(1)]: what the earlier entries did stays
    done, nothing is fetched for this entry, and the entries after it
    are not looked at. *)
Theorem invalid_entry_is_found_when_reached `{S : ScriptHost}
    (es1 es2 : list Value.value) (bad : Value.value) (w : world) :
  let r1 := for_entries es1 w in
  res_outcome r1 = Returned tt ->
  Value.nullish bad = false ->
  Value.truthy (Value.property bad "url")
    && Value.truthy (Value.property bad "filename") = false ->
  for_entries (es1 ++ bad :: es2) w =
    Result (Exited 1) (res_world r1)
      (res_trace r1 ++ [EvErrPrint msg_invalid_entry; EvExit 1]).
Proof.
  intros r1 Hret Hnull Hfalsy. subst r1.
  rewrite for_entries_app, Hret, for_entries_cons, entry_body_run, Hnull.
  rewrite <- negb_andb, Hfalsy. done.
Qed.

Lemma invalid_entry_is_found_when_reached_witness :
  let w := Boot.world_with Boot.one_nameless_text in
  let r1 := for_entries (S := Boot.host) [Boot.entry Demo.url Demo.destination] w in
  for_entries (S := Boot.host) Boot.one_nameless w =
    Result (H := Demo.host) (Exited 1) (res_world r1)
      (res_trace r1 ++ [EvErrPrint msg_invalid_entry; EvExit 1]).
Proof.
  apply (invalid_entry_is_found_when_reached (S := Boot.host)
           [Boot.entry Demo.url Demo.destination]
           [Boot.entry Boot.second_url Boot.second_destination]
           Boot.nameless (Boot.world_with Boot.one_nameless_text)).
  - vm_compute. reflexivity.
  - reflexivity.
  - reflexivity.
Defined.

(** ** [main] on the reference host: every entry installed *)





Section RefMain.
Variable digest : bytes -> string.



Variable missing : answer.
Variable parse : Value.value -> answer.






End RefMain.



(** Where [std.loadFile] answers [null] for a file that is not there
    and [std.parseExtJSON] reads [null] as the text of [null], a
    missing manifest is not reported as unreadable: nothing is printed,
    and reading [downloads] of [null] throws. *)
Example missing_manifest_answered_by_null :
  let r := main (S := Boot.host) Demo.roomy in
  res_outcome r = Thrown (JS.Error "TypeError") /\
  res_trace r = [].
Proof. vm_compute. split; reflexivity. Qed.

(** The manifest with two entries, run from start to end. *)
Example two_files_installed :
  let r := main (S := Boot.host) (Boot.world_with Boot.two_files_text) in
  res_outcome r = Returned tt /\
  Ref.read_file (res_world r) Demo.destination = Some Demo.payload /\
  Ref.read_file (res_world r) Boot.second_destination = Some Boot.second_payload.
Proof. vm_compute. repeat split; reflexivity. Qed.

(** ** [download] where [os.mkdir] reports by its return value *)

Lemma quiet_mkpath_answers (digest : bytes -> string)
    (filePath : string) (mode : Z) (w : Ref.fs) :
  Ref.mkdir_throws w = false ->
  forall p mode' a,
    In (EvMkdir p mode' a) (res_trace (mkpath (H := Ref.host digest) filePath mode w)) ->
    exists rc, a = MkdirReturns rc.
Proof.
  intros Hquiet. unfold mkpath. destruct (_ <=? 0); [by intros ? ? ? []|].
  generalize (JS.split "/" (JS.slice0 filePath (JS.lastIndexOf "/" filePath))).
  generalize "". intros t parts. revert t w Hquiet.
  induction parts as [|part rest IH]; intros t w Hquiet p mode' a; [by intros []|].
  rewrite mkpath_loop_cons. cbv zeta.
  pose proof (ref_mkdir_extends (extend t part) mode w) as (_ & Hsame & _).
  unfold mkdir_step. cbn [os_mkdir Ref.host].
  destruct (ref_mkdir_cases (extend t part) mode w)
    as [(key & _ & _ & _ & Hmk)|(e' & _ & Hmk)]; rewrite Hmk in Hsame |- *.
  - cbn [res_outcome res_world res_trace prepend snd app] in *.
    intros [Hin|Hin]; [injection Hin as _ _ <-; by eexists|].
    eapply IH; [|exact Hin]. congruence.
  - rewrite Hquiet. cbn [res_outcome res_world res_trace prepend snd app] in *.
    intros [Hin|Hin]; [injection Hin as _ _ <-; by eexists|].
    eapply IH; [|exact Hin]. done.
Qed.

(** X17: on the reference host where [os.mkdir] returns its errno
    instead of throwing, [download] never throws: it returns, or it
    leaves through [os.exit(1)].  Every [os.mkdir] of the run came back
    with a number, which [mkpath] dropped; a directory that could not
    be made shows, if at all, when [os.open] is refused. *)
Theorem quiet_download_never_throws (digest : bytes -> string)
    (url filename : string) (checksums : option (list string)) (w : Ref.fs) :
  let r := download (H := Ref.host digest) url filename checksums w in
  Ref.mkdir_throws w = false ->
  (forall e, res_outcome r <> Thrown e) /\
  (res_outcome r = Returned tt \/ res_outcome r = Exited 1) /\
  (forall p mode a, In (EvMkdir p mode a) (res_trace r) ->
     exists rc, a = MkdirReturns rc).
Proof.
  intros r Hquiet. subst r.
  pose proof (quiet_mkpath_returns digest filename default_dir_mode w Hquiet) as Hmkpath.
  pose proof (quiet_mkpath_answers digest filename default_dir_mode w Hquiet) as Hcalls.
  destruct (download_has_shape (H := Ref.host digest) url filename checksums w)
    as [w1 Hget|P0 w1 arr0 Hget Hsome Hinc|P0 w1 e0 Hget Hrej Hmk
       |P0 w1 w2 fd0 Hget Hrej Hmk Hopen Hfd
       |P0 w1 w2 w3 w4 fd0 n0 rc0 Hget Hrej Hmk Hopen Hfd Hwrite Hclose];
    unfold checksum_failure in *;
    cbn [res_trace res_outcome res_world];
    cbn [std_urlGet Ref.host] in Hget; unfold Ref.urlGet in Hget;
    injection Hget as Hnet <-.
  - split; [done|]. split; [by right|].
    intros p mode a Hin. in_cases Hin; discriminate.
  - split; [done|]. split; [by right|].
    intros p mode a Hin. in_cases Hin; discriminate.
  - congruence.
  - split; [done|]. split; [by right|].
    intros p mode a Hin. destruct Hin as [Hin|Hin]; [discriminate|].
    apply in_app_or in Hin as [Hin|Hin]; [by eapply Hcalls|].
    in_cases Hin; discriminate.
  - split; [by destruct (n0 =? byteLength P0)|].
    split; [destruct (n0 =? byteLength P0); [by left | by right]|].
    intros p mode a Hin. destruct Hin as [Hin|Hin]; [discriminate|].
    apply in_app_or in Hin as [Hin|Hin]; [by eapply Hcalls|].
    destruct (n0 =? byteLength P0); in_cases Hin; discriminate.
Qed.

Lemma quiet_download_never_throws_witness :
  let r := download (H := Demo.host) Demo.url Demo.destination None Demo.locked in
  (forall e, res_outcome r <> Thrown e) /\
  (res_outcome r = Returned tt \/ res_outcome r = Exited 1) /\
  (forall p mode a, In (EvMkdir p mode a) (res_trace r) ->
     exists rc, a = MkdirReturns rc).
Proof.
  apply (quiet_download_never_throws SHA256.digest
           Demo.url Demo.destination None Demo.locked).
  reflexivity.
Defined.

(** In the home directory that is not writable, the run ends at the
    open: no directory was made, and the message is about the file. *)
Example locked_home_is_reported_by_open :
  let r := download (H := Demo.host) Demo.url Demo.destination None Demo.locked in
  res_outcome r = Exited 1 /\
  res_trace r =
    [EvUrlGet Demo.url (Some Demo.payload);
     EvMkdir "out" 493 (MkdirReturns (-13));
     EvMkdir "out/dir" 493 (MkdirReturns (-2));
     EvOpen Demo.destination 578 1877 (-2);
     EvErrPrintf fmt_cannot_open [JS.Str Demo.destination];
     EvExit 1].
Proof. vm_compute. split; reflexivity. Qed.
